(** * Playback engine of melodix-discord-player (package [player])

    A shallow embedding of [Player] and its operations: the song queue, the
    playback state machine ([Play], [Pause], [Unpause], [Skip], [Stop]), the
    resume arithmetic of [metrics], and the goroutines blocked inside [Play].

    Conventions of the embedding.
    - [time.Duration] and Go [int] are 64-bit: values are [Z] and every
      arithmetic operation of the source is followed by [wrap64].
    - Pointers to songs and to the external objects are modelled by value;
      a nil pointer is [None].  Dereferencing nil is the abort [NilDeref].
    - The external collaborators (discordgo, dca, history, config, slog) are
      not part of the engine: their calls are recorded in a trace of
      [Event]s and their results are read from an [Env] record.
    - [slog.Fatal]/[slog.Fatalf] log and exit the process: the abort
      [FatalExit].
    - [Play] blocks in two places (the poll loop on the voice connection,
      and the [select] on [done] / [SkipInterrupt]).  A call runs up to
      such a point and is then parked as a [Thread]; the code between two
      blocking points is taken as one atomic step (the mutex, [time.Sleep],
      [slog.Info] and the statistics ticker, which only calls the history
      package, are left out). *)

From Stdlib Require Import ZArith List String Bool Lia.
Import ListNotations.
Open Scope string_scope.
Open Scope list_scope.
Open Scope Z_scope.

(** ** Data model *)

Record Thumbnail := mkThumbnail {
  URL : string;
  Width : N;
  Height : N
}.

Inductive SongSource := SourceYouTube | SourceStream.

(** [Thumb] is the field [Thumbnail] of the source (its name is taken by
    the type). *)
Record Song := mkSong {
  Title : string;
  UserURL : string;
  DownloadURL : string;
  Thumb : Thumbnail;
  Duration : Z;
  ID : string;
  Source : SongSource
}.

Inductive PlaybackStatus :=
  StatusResting | StatusPlaying | StatusPaused | StatusError.

Definition status_eqb (a b : PlaybackStatus) : bool :=
  match a, b with
  | StatusResting, StatusResting | StatusPlaying, StatusPlaying
  | StatusPaused, StatusPaused | StatusError, StatusError => true
  | _, _ => false
  end.

Definition SongSource_String (source : SongSource) : string :=
  match source with
  | SourceYouTube => "YouTube"
  | SourceStream => "Stream"
  end.

Definition PlaybackStatus_String (status : PlaybackStatus) : string :=
  match status with
  | StatusResting => "Resting"
  | StatusPlaying => "Playing"
  | StatusPaused => "Paused"
  | StatusError => "Error"
  end.

(** The voice transport: what the engine reads of a
    [*discordgo.VoiceConnection]. *)
Module discordgo.
Record VoiceConnection := mkVoiceConnection {
  GuildID : string;
  Ready : bool
}.
End discordgo.

(** The encode and stream sessions of package dca: a session is known by
    the number of the [EncodeFile] call that made it, its path and the
    [StartTime] of its options; a stream remembers its encode session and
    whether it is paused. *)
Module dca.
Record EncodeSession := mkEncodeSession {
  session : nat;
  filePath : string;
  StartTime : Z
}.
Record StreamingSession := mkStreamingSession {
  encoder : EncodeSession;
  paused : bool
}.
Definition NewStream (enc : EncodeSession) : StreamingSession :=
  mkStreamingSession enc false.
Definition SetPaused (b : bool) (s : StreamingSession) : StreamingSession :=
  mkStreamingSession (encoder s) b.
End dca.

(** [SkipInterrupt] is [make(chan bool, 1)]: the list is the content of its
    buffer. *)
Record Player := mkPlayer {
  VoiceConnection : option discordgo.VoiceConnection;
  StreamingSession : option dca.StreamingSession;
  EncodingSession : option dca.EncodeSession;
  SongQueue : list Song;
  CurrentSong : option Song;
  CurrentStatus : PlaybackStatus;
  SkipInterrupt : list bool
}.

Definition NewPlayer (guildID : string) : Player :=
  {| VoiceConnection := None;
     SkipInterrupt := [];
     StreamingSession := None;
     EncodingSession := None;
     SongQueue := [];
     CurrentSong := None;
     CurrentStatus := StatusResting |}.

(** Field updates. *)
Definition with_VoiceConnection v (p : Player) : Player :=
  mkPlayer v (StreamingSession p) (EncodingSession p) (SongQueue p)
           (CurrentSong p) (CurrentStatus p) (SkipInterrupt p).
Definition with_StreamingSession s (p : Player) : Player :=
  mkPlayer (VoiceConnection p) s (EncodingSession p) (SongQueue p)
           (CurrentSong p) (CurrentStatus p) (SkipInterrupt p).
Definition with_EncodingSession s (p : Player) : Player :=
  mkPlayer (VoiceConnection p) (StreamingSession p) s (SongQueue p)
           (CurrentSong p) (CurrentStatus p) (SkipInterrupt p).
Definition with_SongQueue q (p : Player) : Player :=
  mkPlayer (VoiceConnection p) (StreamingSession p) (EncodingSession p) q
           (CurrentSong p) (CurrentStatus p) (SkipInterrupt p).
Definition with_CurrentSong s (p : Player) : Player :=
  mkPlayer (VoiceConnection p) (StreamingSession p) (EncodingSession p)
           (SongQueue p) s (CurrentStatus p) (SkipInterrupt p).
Definition with_CurrentStatus st (p : Player) : Player :=
  mkPlayer (VoiceConnection p) (StreamingSession p) (EncodingSession p)
           (SongQueue p) (CurrentSong p) st (SkipInterrupt p).
Definition with_SkipInterrupt c (p : Player) : Player :=
  mkPlayer (VoiceConnection p) (StreamingSession p) (EncodingSession p)
           (SongQueue p) (CurrentSong p) (CurrentStatus p) c.

(** ** The queue *)

Definition Enqueue (song : Song) (p : Player) : Player :=
  with_SongQueue (SongQueue p ++ [song]) p.

Definition Dequeue (p : Player) : option Song * Player :=
  match SongQueue p with
  | [] => (None, p)
  | firstSong :: rest => (Some firstSong, with_SongQueue rest p)
  end.

Definition ClearQueue (p : Player) : Player :=
  match SongQueue p with
  | [] => p
  | _ :: _ => with_SongQueue [] p
  end.

Definition GetCurrentStatus (p : Player) := CurrentStatus p.
Definition SetCurrentStatus (status : PlaybackStatus) (p : Player) :=
  with_CurrentStatus status p.
Definition GetSongQueue (p : Player) := SongQueue p.
Definition GetVoiceConnection (p : Player) := VoiceConnection p.
Definition SetVoiceConnection v (p : Player) := with_VoiceConnection v p.
Definition GetCurrentSong (p : Player) := CurrentSong p.
Definition GetStreamingSession (p : Player) := StreamingSession p.

(** ** 64-bit durations and [metrics] *)

Definition wrap64 (z : Z) : Z := (z + 2 ^ 63) mod 2 ^ 64 - 2 ^ 63.

Definition Second : Z := 1000000000.

(** [int(d.Seconds())]: the whole seconds of [d], truncated towards zero.
    The source goes through float64 ([float64(sec) + float64(nsec)/1e9]);
    that sum is below [sec + 1] and truncates to [sec] as long as [d] is
    below 2^24 seconds, which is the range this definition stands for (at
    16777216 s and 999999999 ns the float64 sum rounds up to 16777217).
    Statements that depend on the value keep [d] in that range. *)
Definition whole_seconds (d : Z) : Z := Z.quot d Second.

(** Results of the external calls made during one atomic step. *)
Inductive GoError := io_EOF | OtherError (msg : string).

Record Env := mkEnv {
  NewConfig_fails : bool;        (* config.NewConfig() returns an error *)
  EncodeFile_fails : bool;       (* dca.EncodeFile returns (nil, err) *)
  Speaking_true_fails : bool;    (* VoiceConnection.Speaking(true) *)
  Speaking_false_fails : bool;   (* VoiceConnection.Speaking(false) in Stop *)
  Disconnect_fails : bool;       (* VoiceConnection.Disconnect() *)
  Stats_Duration : Z;            (* EncodingSession.Stats().Duration, in ns *)
  PlaybackPosition : Z;          (* StreamingSession.PlaybackPosition(), ns *)
  ParseDuration : Z;             (* time.ParseDuration(params["duration"]) of
                                    the download URL; 0 when it fails *)
  CountStats_error : option GoError (* h.AddPlaybackCountStats in Play *)
}.

Definition metrics (encoding : dca.EncodeSession) (e : Env) (song : Song)
  : Z * Z :=
  let encodingDuration := Stats_Duration e in
  let encodingStartTime := wrap64 (dca.StartTime encoding * Second) in
  let streamingPosition := PlaybackPosition e in
  let delay := wrap64 (encodingDuration - streamingPosition) in
  let duration := ParseDuration e in
  let songDuration := wrap64 (duration * Second) in
  let songPosition :=
    wrap64 (wrap64 (encodingStartTime + streamingPosition) + delay) in
  (songDuration, songPosition).

(** ** The world around the engine *)

Inductive Event :=
| EvPlay (startAt : Z) (song : option Song)       (* p.Play(startAt, song) entered *)
| EvEncodeFile (path : string) (startAt : Z)      (* dca.EncodeFile(path, options) *)
| EvEncodeStop (s : nat)                          (* EncodeSession.Stop() *)
| EvEncodeCleanup (s : nat)                       (* EncodeSession.Cleanup() *)
| EvNewStream (s : nat)                           (* dca.NewStream(session, vc, done) *)
| EvSetPaused (b : bool)                          (* StreamingSession.SetPaused(b) *)
| EvSpeaking (b : bool)                           (* VoiceConnection.Speaking(b) *)
| EvDisconnect                                    (* VoiceConnection.Disconnect() *)
| EvAddTrackToHistory (guild id : string)
| EvAddPlaybackCountStats (guild id : string)
| EvLogError (msg : string)                       (* slog.Errorf *)
| EvLogWarn (msg : string)                        (* slog.Warn, slog.Warnf *)
| EvLogFatal (msg : string).                      (* slog.Fatal, slog.Fatalf *)

Record World := mkWorld {
  player : Player;
  trace : list Event;     (* external calls so far, oldest first *)
  sessions : nat          (* number of encode sessions opened so far *)
}.

Definition upd (f : Player -> Player) (w : World) : World :=
  mkWorld (f (player w)) (trace w) (sessions w).

Definition emit (ev : Event) (w : World) : World :=
  mkWorld (player w) (trace w ++ [ev]) (sessions w).

Definition initial (guildID : string) : World :=
  mkWorld (NewPlayer guildID) [] 0.

Inductive Abort :=
| FatalExit    (* slog.Fatal: the process exits *)
| NilDeref.    (* nil pointer dereference: the process panics *)

(** What is left to do when a blocked [Play] finally returns: the callers
    on the goroutine's stack, innermost first. *)
Inductive Frame :=
| DeferCleanup (enc : dca.EncodeSession)
    (* an outer Play that called p.Play(...) and then returns: its deferred
       p.EncodingSession.Cleanup(), bound to the session it opened, runs *)
| ThenPlaying.
    (* Skip or Unpause: p.CurrentStatus = StatusPlaying follows p.Play(0, nil) *)

Fixpoint unwind (k : list Frame) (w : World) : World :=
  match k with
  | [] => w
  | DeferCleanup enc :: k' => unwind k' (emit (EvEncodeCleanup (dca.session enc)) w)
  | ThenPlaying :: k' => unwind k' (upd (with_CurrentStatus StatusPlaying) w)
  end.

(** Where a goroutine inside [Play] is blocked. *)
Inductive Wait :=
| AtReady     (* for p.VoiceConnection == nil || !p.VoiceConnection.Ready *)
| AtSelect.   (* select { case <-done: ... case <-p.SkipInterrupt: ... } *)

Record Thread := mkThread {
  waiting : Wait;
  opened : dca.EncodeSession;   (* the session of the deferred Cleanup *)
  callers : list Frame
}.

Inductive Result :=
| Returned (w : World)
| Blocked (t : Thread) (w : World)
| Crashed (a : Abort) (w : World).

(** ** Stop, Pause *)

Definition Stop (e : Env) (w : World) : Result :=
  let w := upd ClearQueue w in
  let disconnected :=
    match VoiceConnection (player w) with
    | Some vc =>
        let w := emit (EvSpeaking false) w in
        let w := if Speaking_false_fails e
                 then emit (EvLogError "Error disconnecting voice connection") w
                 else w in
        let w := emit EvDisconnect w in
        if Disconnect_fails e
        then Crashed FatalExit (emit (EvLogFatal "Disconnect") w)
        else Returned (upd (SetVoiceConnection None) w)
    | None => Returned w
    end in
  match disconnected with
  | Returned w =>
      let w := match StreamingSession (player w) with
               | Some _ => upd (with_StreamingSession None) w
               | None => w
               end in
      let w := match EncodingSession (player w) with
               | Some enc =>
                   emit (EvEncodeCleanup (dca.session enc))
                        (emit (EvEncodeStop (dca.session enc)) w)
               | None => w
               end in
      let w := match CurrentSong (player w) with
               | Some _ => upd (with_CurrentSong None) w
               | None => w
               end in
      Returned (upd (with_CurrentStatus StatusResting) w)
  | other => other
  end.

Definition Pause (w : World) : World :=
  match VoiceConnection (player w), StreamingSession (player w) with
  | None, _ => w
  | _, None => w
  | Some _, Some s =>
      if status_eqb (CurrentStatus (player w)) StatusPlaying
      then upd (with_CurrentStatus StatusPaused)
             (upd (with_StreamingSession (Some (dca.SetPaused true s)))
                (emit (EvSetPaused true) w))
      else w
  end.

(** ** Play: from the call to the select *)

(** The part of [Play] after the poll loop: reached from [Play] itself when
    the connection is ready, or later when a parked goroutine finds it
    ready. *)
Definition Play_ready (enc : dca.EncodeSession) (e : Env) (k : list Frame)
  (w : World) : Result :=
  match VoiceConnection (player w) with
  | Some vc =>
      if discordgo.Ready vc then
        let w := emit (EvSpeaking true) w in
        if Speaking_true_fails e then
          let w := emit (EvLogError "Error connecting to Discord voice") w in
          let w := emit (EvSpeaking false) w in
          Returned (unwind (DeferCleanup enc :: k) w)
        else
          let w := emit (EvNewStream (dca.session enc)) w in
          let w := upd (with_StreamingSession (Some (dca.NewStream enc))) w in
          let w := upd (with_CurrentStatus StatusPlaying) w in
          match CurrentSong (player w) with
          | None => Crashed NilDeref w
          | Some cur =>
              let w := emit (EvAddTrackToHistory (discordgo.GuildID vc) (ID cur)) w in
              Blocked (mkThread AtSelect enc k) w
          end
      else Blocked (mkThread AtReady enc k) w
  | None => Blocked (mkThread AtReady enc k) w
  end.

(** [song] is only tested against nil: the song played is [p.CurrentSong]. *)
Definition Play (startAt : Z) (song : option Song) (e : Env) (k : list Frame)
  (w : World) : Result :=
  let w := emit (EvPlay startAt song) w in
  let w := match song with
           | None => let (first, p') := Dequeue (player w) in
                     upd (fun _ => with_CurrentSong first p') w
           | Some _ => w
           end in
  match song, CurrentSong (player w) with
  | None, None =>
      Returned (unwind k (upd (with_CurrentStatus StatusResting) w))
  | _, None => Crashed NilDeref w
  | _, Some cur =>
      if NewConfig_fails e
      then Crashed FatalExit (emit (EvLogFatal "Error loading config") w)
      else
        let w := emit (EvEncodeFile (DownloadURL cur) startAt) w in
        if EncodeFile_fails e then
          let w := upd (with_EncodingSession None) w in
          Returned (unwind k (emit (EvLogError "Error encoding song") w))
        else
          let enc := dca.mkEncodeSession (sessions w) (DownloadURL cur) startAt in
          let w := mkWorld (with_EncodingSession (Some enc) (player w))
                           (trace w) (S (sessions w)) in
          Play_ready enc e k w
  end.

(** ** Play: the two cases of the select *)

(** [case <-p.SkipInterrupt]: ready only when the buffer holds a signal. *)
Definition select_skip (enc : dca.EncodeSession) (k : list Frame) (w : World)
  : option Result :=
  match SkipInterrupt (player w) with
  | [] => None
  | _ :: rest =>
      let w := upd (with_SkipInterrupt rest) w in
      let w := match VoiceConnection (player w) with
               | Some _ => emit (EvSpeaking false) w
               | None => w
               end in
      match EncodingSession (player w) with
      | None => Some (Crashed NilDeref w)
      | Some cur_enc =>
          let w := emit (EvEncodeCleanup (dca.session cur_enc)) w in
          Some (Returned (unwind (DeferCleanup enc :: k) w))
      end
  end.

(** The restart of the current song from [startAt] (source lines 393-400
    and 407-414): clean up, stop speaking, play again, return. *)
Definition restart (startAt : Z) (cur : Song) (enc : dca.EncodeSession)
  (e : Env) (k : list Frame) (w : World) : Result :=
  let w := emit (EvLogWarn "Song is done, restarting") w in
  match EncodingSession (player w) with
  | None => Crashed NilDeref w
  | Some cur_enc =>
      let w := emit (EvEncodeCleanup (dca.session cur_enc)) w in
      let w := emit (EvSpeaking false) w in
      Play startAt (Some cur) e (DeferCleanup enc :: k) w
  end.

(** The end of the [done] case (source lines 425-452), [err] being the
    variable of that name. *)
Definition song_is_done (err : option GoError) (enc : dca.EncodeSession)
  (e : Env) (k : list Frame) (w : World) : Result :=
  match err with
  | Some (OtherError _) =>
      let w := emit (EvLogWarn "Song is done but an unexpected error occurred") w in
      let w := match VoiceConnection (player w) with
               | Some _ => emit (EvSpeaking false) w
               | None => w
               end in
      let w := upd (with_CurrentStatus StatusResting) w in
      match EncodingSession (player w) with
      | None => Crashed NilDeref w
      | Some cur_enc =>
          let w := emit (EvEncodeCleanup (dca.session cur_enc)) w in
          Returned (unwind (DeferCleanup enc :: k) w)
      end
  | _ =>
      match GetSongQueue (player w) with
      | [] =>
          match Stop e w with
          | Returned w => Returned (unwind (DeferCleanup enc :: k) w)
          | other => other
          end
      | _ :: _ => Play 0 None e (DeferCleanup enc :: k) w
      end
  end.

(** The statistics call of line 419 and what follows it. *)
Definition count_and_finish (vc : discordgo.VoiceConnection) (cur : Song)
  (enc : dca.EncodeSession) (e : Env) (k : list Frame) (w : World) : Result :=
  let w := emit (EvAddPlaybackCountStats (discordgo.GuildID vc) (ID cur)) w in
  song_is_done (CountStats_error e) enc e k w.

(** [case <-done]: the value received is dropped; [err] still holds the nil
    result of [Speaking(true)] until line 419 assigns it. *)
Definition select_done (enc : dca.EncodeSession) (e : Env) (k : list Frame)
  (w : World) : Result :=
  let p := player w in
  match VoiceConnection p, StreamingSession p, CurrentSong p with
  | Some vc, Some _, Some cur =>
      match Source cur with
      | SourceStream =>
          if status_eqb (CurrentStatus p) StatusPlaying
          then restart 0 cur enc e k w
          else count_and_finish vc cur enc e k w
      | SourceYouTube =>
          match EncodingSession p with
          | None => Crashed NilDeref w
          | Some cur_enc =>
              let (songDuration, songPosition) := metrics cur_enc e cur in
              if status_eqb (CurrentStatus p) StatusPlaying then
                if (0 <? Stats_Duration e) && (0 <? songPosition) then
                  if songPosition <? songDuration
                  then restart (whole_seconds songPosition) cur enc e k w
                  else count_and_finish vc cur enc e k w
                else count_and_finish vc cur enc e k w
              else count_and_finish vc cur enc e k w
          end
      end
  | _, _, _ => song_is_done None enc e k w
  end.

(** ** Skip, Unpause *)

(** [p.SkipInterrupt <- true], used where [len(p.SkipInterrupt) == 0] has
    just been checked. *)
Definition send_skip (w : World) : World :=
  upd (fun p => with_SkipInterrupt (SkipInterrupt p ++ [true]) p) w.

Definition Skip (e : Env) (w : World) : Result :=
  let p := player w in
  match CurrentStatus p with
  | StatusPlaying | StatusPaused =>
      match VoiceConnection p, CurrentSong p with
      | Some vc, Some cur =>
          let w := upd (with_CurrentStatus StatusResting) w in
          match SkipInterrupt p with
          | [] =>
              let w := emit (EvAddPlaybackCountStats (discordgo.GuildID vc) (ID cur)) w in
              Play 0 None e [] (send_skip w)
          | _ :: _ => Returned w
          end
      | _, _ => Returned w
      end
  | StatusResting =>
      match CurrentSong p with
      | Some cur =>
          match SkipInterrupt p with
          | [] =>
              match VoiceConnection p with
              | None => Crashed NilDeref w
              | Some vc =>
                  let w := emit (EvAddPlaybackCountStats (discordgo.GuildID vc) (ID cur)) w in
                  Play 0 None e [ThenPlaying] (send_skip w)
              end
          | _ :: _ => Returned w
          end
      | None =>
          match SkipInterrupt p with
          | [] => Play 0 None e [ThenPlaying] (send_skip w)
          | _ :: _ => Returned w
          end
      end
  | StatusError => Returned w
  end.

Definition Unpause (e : Env) (w : World) : Result :=
  match VoiceConnection (player w) with
  | None => Returned w
  | Some _ =>
      let w := match StreamingSession (player w) with
               | Some s =>
                   if status_eqb (CurrentStatus (player w)) StatusPaused
                   then upd (with_CurrentStatus StatusPlaying)
                          (upd (with_StreamingSession (Some (dca.SetPaused false s)))
                             (emit (EvSetPaused false) w))
                   else w
               | None => w
               end in
      match GetSongQueue (player w) with
      | _ :: _ =>
          if status_eqb (CurrentStatus (player w)) StatusResting
          then Play 0 None e [ThenPlaying] w
          else Returned w
      | [] => Returned w
      end
  end.

(** ** The engine with its goroutines *)

Inductive Op :=
| OpPlay (startAt : Z) (song : option Song)
| OpPause | OpUnpause | OpSkip | OpStop
| OpEnqueue (song : Song) | OpDequeue | OpClearQueue
| OpSetVoiceConnection (v : option discordgo.VoiceConnection)
| OpSetCurrentStatus (status : PlaybackStatus).

Definition call (op : Op) (e : Env) (w : World) : Result :=
  match op with
  | OpPlay startAt song => Play startAt song e [] w
  | OpPause => Returned (Pause w)
  | OpUnpause => Unpause e w
  | OpSkip => Skip e w
  | OpStop => Stop e w
  | OpEnqueue song => Returned (upd (Enqueue song) w)
  | OpDequeue => Returned (upd (fun p => snd (Dequeue p)) w)
  | OpClearQueue => Returned (upd ClearQueue w)
  | OpSetVoiceConnection v => Returned (upd (SetVoiceConnection v) w)
  | OpSetCurrentStatus status => Returned (upd (SetCurrentStatus status) w)
  end.

(** A live process: the shared player and the goroutines parked in [Play];
    or a process that has exited. *)
Inductive System :=
| Live (w : World) (threads : list Thread)
| Dead (a : Abort) (w : World).

Inductive Label :=
| Call (op : Op) (e : Env)      (* the command layer calls an operation *)
| Done (i : nat) (e : Env)      (* goroutine i receives from its done channel *)
| Skipped (i : nat)             (* goroutine i receives from p.SkipInterrupt *)
| Connected (i : nat) (e : Env). (* goroutine i leaves the poll loop *)

Fixpoint remove_nth {A} (i : nat) (l : list A) : list A :=
  match i, l with
  | _, [] => []
  | O, _ :: l' => l'
  | S i', x :: l' => x :: remove_nth i' l'
  end.

Definition settle (r : Result) (others : list Thread) : System :=
  match r with
  | Returned w => Live w others
  | Blocked t w => Live w (others ++ [t])
  | Crashed a w => Dead a w
  end.

Definition connection_ready (w : World) : bool :=
  match VoiceConnection (player w) with
  | Some vc => discordgo.Ready vc
  | None => false
  end.

(** One step; [None] when the label is not enabled. *)
Definition step (l : Label) (s : System) : option System :=
  match s with
  | Dead _ _ => None
  | Live w ts =>
      match l with
      | Call op e => Some (settle (call op e w) ts)
      | Done i e =>
          match nth_error ts i with
          | Some (mkThread AtSelect enc k) =>
              Some (settle (select_done enc e k w) (remove_nth i ts))
          | _ => None
          end
      | Skipped i =>
          match nth_error ts i with
          | Some (mkThread AtSelect enc k) =>
              match select_skip enc k w with
              | Some r => Some (settle r (remove_nth i ts))
              | None => None
              end
          | _ => None
          end
      | Connected i e =>
          match nth_error ts i with
          | Some (mkThread AtReady enc k) =>
              if connection_ready w
              then Some (settle (Play_ready enc e k w) (remove_nth i ts))
              else None
          | _ => None
          end
      end
  end.

Fixpoint run (ls : list Label) (s : System) : option System :=
  match ls with
  | [] => Some s
  | l :: ls' =>
      match step l s with
      | Some s' => run ls' s'
      | None => None
      end
  end.

(** ** Sample data *)

Definition song (name : string) (source : SongSource) : Song :=
  mkSong name ("https://youtu.be/" ++ name)%string
         ("https://cdn.example/" ++ name)%string
         (mkThumbnail "" 0 0) 0 name source.

Definition song_a := song "a" SourceYouTube.
Definition song_b := song "b" SourceYouTube.
Definition song_c := song "c" SourceYouTube.
Definition radio := song "radio" SourceStream.

Definition guild_voice := discordgo.mkVoiceConnection "guild" true.

(** Every external call succeeds; no statistics are available. *)
Definition env_ok : Env := mkEnv false false false false false 0 0 0 None.

Definition with_Disconnect_fails (e : Env) : Env :=
  mkEnv (NewConfig_fails e) (EncodeFile_fails e) (Speaking_true_fails e)
        (Speaking_false_fails e) true (Stats_Duration e) (PlaybackPosition e)
        (ParseDuration e) (CountStats_error e).

Definition with_EncodeFile_fails (e : Env) : Env :=
  mkEnv (NewConfig_fails e) true (Speaking_true_fails e)
        (Speaking_false_fails e) (Disconnect_fails e) (Stats_Duration e)
        (PlaybackPosition e) (ParseDuration e) (CountStats_error e).

Definition with_Speaking_true_fails (e : Env) : Env :=
  mkEnv (NewConfig_fails e) (EncodeFile_fails e) true
        (Speaking_false_fails e) (Disconnect_fails e) (Stats_Duration e)
        (PlaybackPosition e) (ParseDuration e) (CountStats_error e).

(** The statistics of the resume example: 41 s encoded, 30 s streamed, a
    duration parameter that [metrics] turns into 180 s. *)
Definition env_resume : Env :=
  mkEnv false false false false false (41 * Second) (30 * Second) 180 None.

(** The same statistics with a download URL whose duration parameter says
    180 s: ParseDuration returns 180 s, that is 180 * 10^9 ns. *)
Definition env_180s : Env :=
  mkEnv false false false false false (41 * Second) (30 * Second)
        (180 * Second) None.

(** The same with a duration parameter that ParseDuration refuses (a bare
    number of seconds, or none): it returns 0. *)
Definition env_no_duration : Env :=
  mkEnv false false false false false (41 * Second) (30 * Second) 0 None.

(** A fresh engine joined to a voice channel. *)
Definition joined : System :=
  Live (upd (SetVoiceConnection (Some guild_voice)) (initial "guild")) [].

Definition status_of (s : System) : option PlaybackStatus :=
  match s with
  | Live w _ => Some (CurrentStatus (player w))
  | Dead _ _ => None
  end.

Definition world_of (s : System) : World :=
  match s with
  | Live w _ => w
  | Dead _ w => w
  end.

Definition result_world (r : Result) : World :=
  match r with
  | Returned w => w
  | Blocked _ w => w
  | Crashed _ w => w
  end.

Definition abort_of (r : Result) : option Abort :=
  match r with
  | Crashed a _ => Some a
  | _ => None
  end.

(** The system after the given steps (unchanged when one is not enabled). *)
Definition after (ls : list Label) (s : System) : System :=
  match run ls s with
  | Some s' => s'
  | None => s
  end.

(** [song] was enqueued on a fresh, joined engine and Play(0, nil) has
    reached its select. *)
Definition playing (s : Song) (queued : list Song) : System :=
  after (Call (OpEnqueue s) env_ok
         :: map (fun q => Call (OpEnqueue q) env_ok) queued
         ++ [Call (OpPlay 0 None) env_ok]) joined.

(** The same with Play(10, nil): the encode session starts at 10 s. *)
Definition playing_from_10 : System :=
  after [Call (OpEnqueue song_a) env_ok; Call (OpPlay 10 None) env_ok] joined.

Definition session_0 (s : Song) (startAt : Z) : dca.EncodeSession :=
  dca.mkEncodeSession 0 (DownloadURL s) startAt.

(** [song_a] is queued on a fresh, joined engine; nothing plays. *)
Definition queued_a : World :=
  world_of (after [Call (OpEnqueue song_a) env_ok] joined).

Definition threads_of (s : System) : list Thread :=
  match s with
  | Live _ ts => ts
  | Dead _ _ => []
  end.

(** [song_a] was playing and Pause has been called. *)
Definition paused_a : System := after [Call OpPause env_ok] (playing song_a []).

(** [song_a] was queued on a fresh engine and EncodeFile failed in Play. *)
Definition encode_failed_a : System :=
  after [Call (OpEnqueue song_a) env_ok;
         Call (OpPlay 0 None) (with_EncodeFile_fails env_ok)]
        (Live (initial "guild") []).

(** [song_a] was playing and Stop has been called. *)
Definition stopped_a : System := after [Call OpStop env_ok] (playing song_a []).

Definition env_Speaking_false_fails : Env :=
  mkEnv false false false true false 0 0 0 None.

(** The calls [p.Play(n, song)] with a song given, among the events. *)
Definition is_replay (ev : Event) : bool :=
  match ev with
  | EvPlay _ (Some _) => true
  | _ => false
  end.

Definition replays (w : World) : list Event := filter is_replay (trace w).

(** The song Play is about to use: the current one when a song is given,
    the head of the queue otherwise. *)
Definition loaded (song : option Song) (p : Player) : option Song :=
  match song with
  | Some _ => CurrentSong p
  | None => fst (Dequeue p)
  end.

(** ** Reachable states *)

(** The operations of the engine proper: everything but the two setters
    that overwrite the status or detach the connection from outside. *)
Definition engine_op (op : Op) : bool :=
  match op with
  | OpSetCurrentStatus _ => false
  | OpSetVoiceConnection None => false
  | _ => true
  end.

Definition engine_label (l : Label) : bool :=
  match l with
  | Call op _ => engine_op op
  | _ => true
  end.

Definition reachable (s : System) : Prop :=
  exists guildID ls,
    forallb engine_label ls = true
    /\ run ls (Live (initial guildID) []) = Some s.

(** What holds of the handles in every reachable state. *)
Definition Inv (w : World) : Prop :=
  (List.length (SkipInterrupt (player w)) <= 1)%nat
  /\ (StreamingSession (player w) <> None -> VoiceConnection (player w) <> None)
  /\ (CurrentStatus (player w) = StatusPaused ->
      StreamingSession (player w) <> None).

Definition Inv_result (r : Result) : Prop :=
  match r with
  | Returned w => Inv w
  | Blocked _ w => Inv w
  | Crashed _ _ => True
  end.

Definition Inv_system (s : System) : Prop :=
  match s with
  | Live w _ => Inv w
  | Dead _ _ => True
  end.

(** ** Compositions of the queue operations *)

(** [for _, song := range playlist { d.Player.Enqueue(song) }], the loop of
    enqueuePlaylist in the command layer. *)
Definition Enqueue_all (playlist : list Song) (p : Player) : Player :=
  fold_left (fun p song => Enqueue song p) playlist p.

(** [n] calls of Dequeue in a row: what each returned, and the player. *)
Fixpoint Dequeue_n (n : nat) (p : Player) : list (option Song) * Player :=
  match n with
  | O => ([], p)
  | S n' =>
      let (first, p') := Dequeue p in
      let (rest, p'') := Dequeue_n n' p' in
      (first :: rest, p'')
  end.

(** ** The command layer (internal/melodix/discord.go)

    The handlers reach the player through the IPlayer interface.  Chat
    messages, embeds and the avatar change are calls on the Discord session
    that leave the player alone; they are left out, like slog.Info. *)

Inductive Handler :=
| NoHandler
| PauseCommand
| ResumeCommand
| PlayCommand (param : string) (enqueueOnly : bool)
| SkipCommand
| ShowQueueCommand
| StopCommand
| HelpCommand
| HistoryCommand (param : string)
| AboutCommand.

(** The switch of Commands on the canonical command, with its two
    [fallthrough]s; [status] is what d.Player.GetCurrentStatus() returns. *)
Definition Commands_switch (canonicalCommand parameter : string)
  (status : PlaybackStatus) : Handler :=
  let case_play := PlayCommand parameter false in
  let case_resume :=
    if (parameter =? "")%string && negb (status_eqb status StatusPlaying)
    then ResumeCommand else case_play in
  let case_pause :=
    if (parameter =? "")%string && status_eqb status StatusPlaying
    then PauseCommand else case_resume in
  if (canonicalCommand =? "pause")%string then case_pause
  else if (canonicalCommand =? "resume")%string then case_resume
  else if (canonicalCommand =? "play")%string then case_play
  else if (canonicalCommand =? "skip")%string then SkipCommand
  else if (canonicalCommand =? "list")%string then ShowQueueCommand
  else if (canonicalCommand =? "add")%string then PlayCommand parameter true
  else if (canonicalCommand =? "exit")%string then StopCommand
  else if (canonicalCommand =? "help")%string then HelpCommand
  else if (canonicalCommand =? "history")%string then HistoryCommand parameter
  else if (canonicalCommand =? "about")%string then AboutCommand
  else NoHandler.

(** Commands: the guards before the switch.  [parsed] is the result of
    parseCommand (None for an error) and [getCanonicalCommand] the lookup in
    the alias table; both functions live outside this file's sources. *)
Definition Commands (same_guild InstanceActive : bool)
  (parsed : option (string * string)) (getCanonicalCommand : string -> string)
  (status : PlaybackStatus) : Handler :=
  if negb same_guild then NoHandler
  else if negb InstanceActive then NoHandler
  else match parsed with
       | None => NoHandler
       | Some (command, parameter) =>
           let canonicalCommand := getCanonicalCommand command in
           if (canonicalCommand =? "")%string then NoHandler
           else Commands_switch canonicalCommand parameter status
       end.

(** [d.Player.GetCurrentSong().ID] dereferences the current song. *)
Definition handlePauseCommand (w : World) : Result :=
  match GetCurrentSong (player w) with
  | None => Crashed NilDeref w
  | Some cur =>
      if (ID cur =? "")%string then Returned w else Returned (Pause w)
  end.

Definition handleStopCommand (e : Env) (w : World) : Result :=
  Stop e (upd ClearQueue w).

Definition handleSkipCommand (e : Env) (w : World) : Result := Skip e w.

(** handleResumeCommand: when the author of the message is in a voice
    channel and the player has no connection, the channel is joined
    ([ChannelVoiceJoin] is the connection obtained, None for an error, which
    ends the handler); then Unpause. *)
Definition handleResumeCommand (author_in_voice : bool)
  (ChannelVoiceJoin : option discordgo.VoiceConnection) (e : Env) (w : World)
  : Result :=
  if author_in_voice then
    match GetVoiceConnection (player w) with
    | None =>
        match ChannelVoiceJoin with
        | None => Returned w
        | Some conn => Unpause e (upd (SetVoiceConnection (Some conn)) w)
        end
    | Some _ => Unpause e w
    end
  else Unpause e w.

(** The Cleanup calls that [unwind] makes for a stack of callers. *)
Fixpoint deferred_cleanups (k : list Frame) : list Event :=
  match k with
  | [] => []
  | DeferCleanup enc :: k' => EvEncodeCleanup (dca.session enc) :: deferred_cleanups k'
  | ThenPlaying :: k' => deferred_cleanups k'
  end.

(** [song_a] and [song_b] are queued on a joined engine at rest, and the
    resume command has started playback through Unpause. *)
Definition resumed_ab : System :=
  after [Call (OpEnqueue song_a) env_ok; Call (OpEnqueue song_b) env_ok;
         Call OpUnpause env_ok] joined.

(** ** The queue *)

Lemma Enqueue_queue song p : SongQueue (Enqueue song p) = SongQueue p ++ [song].
Proof. reflexivity. Qed.

Lemma Dequeue_cons p x rest :
  SongQueue p = x :: rest -> Dequeue p = (Some x, with_SongQueue rest p).
Proof. unfold Dequeue. intros ->. reflexivity. Qed.

Lemma Dequeue_nil p : SongQueue p = [] -> Dequeue p = (None, p).
Proof. unfold Dequeue. intros ->. reflexivity. Qed.

(** C9. The queue is first-in first-out.  Starting from an engine whose
    queue is empty, Enqueue(a), Enqueue(b), Enqueue(c) followed by four
    Dequeue calls yields a, b, c and then nil, the queue being empty at the
    end; Enqueue appends at the tail of any queue, keeping the songs already
    there in order (Dequeue then still returns the old head); and Dequeue on
    an empty queue returns nil and leaves the player as it is. *)
Theorem queue_is_fifo :
  (forall p a b c,
      let p0 := with_SongQueue [] p in
      let p3 := Enqueue c (Enqueue b (Enqueue a p0)) in
      let d1 := Dequeue p3 in
      let d2 := Dequeue (snd d1) in
      let d3 := Dequeue (snd d2) in
      let d4 := Dequeue (snd d3) in
      [fst d1; fst d2; fst d3; fst d4] = [Some a; Some b; Some c; None]
      /\ SongQueue (snd d4) = [])
  /\ (forall p s, SongQueue (Enqueue s p) = SongQueue p ++ [s])
  /\ (forall p s x rest,
         SongQueue p = x :: rest ->
         Dequeue (Enqueue s p) = (Some x, with_SongQueue (rest ++ [s]) p))
  /\ (forall p, SongQueue p = [] ->
                Dequeue p = (None, p) /\ SongQueue (snd (Dequeue p)) = []).
Proof.
  repeat split.
  - intros p s x rest H. unfold Dequeue, Enqueue. simpl. rewrite H. reflexivity.
  - now apply Dequeue_nil.
  - rewrite (Dequeue_nil p H). exact H.
Qed.

Lemma queue_is_fifo_witness :
  Dequeue (Enqueue song_b (Enqueue song_a (NewPlayer "guild")))
  = (Some song_a, with_SongQueue ([] ++ [song_b]) (Enqueue song_a (NewPlayer "guild")))
  /\ Dequeue (NewPlayer "guild") = (None, NewPlayer "guild").
Proof.
  destruct queue_is_fifo as (_ & _ & Hhead & Hnil). split.
  - apply (Hhead (Enqueue song_a (NewPlayer "guild")) song_b song_a []). reflexivity.
  - apply (Hnil (NewPlayer "guild")). reflexivity.
Defined.

(** C10. ClearQueue touches the song queue only: the current song, the
    status, the voice connection, the skip channel and the encode and stream
    sessions are those of before, the queue is empty afterwards, an empty
    queue leaves the player untouched, and as a step of the running engine
    it makes no external call and disturbs no goroutine parked in Play. *)
Theorem ClearQueue_frame :
  forall p,
    CurrentSong (ClearQueue p) = CurrentSong p
    /\ CurrentStatus (ClearQueue p) = CurrentStatus p
    /\ VoiceConnection (ClearQueue p) = VoiceConnection p
    /\ SkipInterrupt (ClearQueue p) = SkipInterrupt p
    /\ EncodingSession (ClearQueue p) = EncodingSession p
    /\ StreamingSession (ClearQueue p) = StreamingSession p
    /\ SongQueue (ClearQueue p) = []
    /\ (SongQueue p = [] -> ClearQueue p = p)
    /\ (forall e t n ts,
           step (Call OpClearQueue e) (Live (mkWorld p t n) ts)
           = Some (Live (mkWorld (ClearQueue p) t n) ts)).
Proof.
  intros p. unfold ClearQueue.
  destruct (SongQueue p) eqn:Hq; simpl; repeat split; auto;
    try discriminate;
    unfold upd, ClearQueue; simpl; rewrite Hq; reflexivity.
Qed.

Lemma ClearQueue_frame_witness :
  SongQueue (NewPlayer "guild") = []
  /\ ClearQueue (NewPlayer "guild") = NewPlayer "guild".
Proof.
  split; [reflexivity|].
  apply (ClearQueue_frame (NewPlayer "guild")). reflexivity.
Defined.

(** ** Stop *)

(** C1, as the code has it.  From any state, Stop either returns or exits
    the process.  When it returns, the status is Resting, the queue is
    empty, there is no current song, no voice connection and no stream
    session, and the encode session (which the player still points to) has
    been stopped and cleaned up as the last two external calls.  A failing
    Speaking(false) is logged and changes nothing of that.  Stop exits the
    process, through slog.Fatal, exactly when a voice connection is attached
    and its Disconnect fails. *)
Theorem Stop_returns_Resting_or_exits :
  forall e w,
    match Stop e w with
    | Returned w' =>
        CurrentStatus (player w') = StatusResting
        /\ SongQueue (player w') = []
        /\ CurrentSong (player w') = None
        /\ VoiceConnection (player w') = None
        /\ StreamingSession (player w') = None
        /\ EncodingSession (player w') = EncodingSession (player w)
        /\ (forall enc, EncodingSession (player w) = Some enc ->
              exists t, trace w' = t ++ [EvEncodeStop (dca.session enc);
                                         EvEncodeCleanup (dca.session enc)])
        /\ (VoiceConnection (player w) <> None ->
            Speaking_false_fails e = true ->
            In (EvLogError "Error disconnecting voice connection") (trace w'))
        /\ (VoiceConnection (player w) = None \/ Disconnect_fails e = false)
    | Crashed a _ =>
        a = FatalExit /\ VoiceConnection (player w) <> None
        /\ Disconnect_fails e = true
    | Blocked _ _ => False
    end.
Proof.
  intros e [[vc ss es q cs st sk] t n].
  unfold Stop, upd, emit, ClearQueue, SetVoiceConnection; simpl.
  destruct vc as [vc|], q as [|x q], (Speaking_false_fails e) eqn:Hs,
      (Disconnect_fails e) eqn:Hd, ss as [ss|], es as [es|], cs as [cs|];
    simpl; repeat split; auto; try discriminate;
    try (intros enc Henc; inversion Henc; subst; eexists;
         rewrite <- app_assoc; reflexivity);
    try (intros Hvc Hf; try congruence; rewrite ?in_app_iff; simpl; tauto).
Qed.

Lemma Stop_returns_Resting_or_exits_witness :
  In (EvLogError "Error disconnecting voice connection")
     (trace (result_world (Stop env_Speaking_false_fails
                                (world_of (playing song_a []))))).
Proof.
  pose proof (Stop_returns_Resting_or_exits env_Speaking_false_fails
                (world_of (playing song_a []))) as H.
  destruct (Stop env_Speaking_false_fails (world_of (playing song_a [])))
    as [w'|th w'|a w'].
  - destruct H as (_ & _ & _ & _ & _ & _ & _ & H & _).
    apply H; [vm_compute; discriminate | reflexivity].
  - destruct H.
  - destruct H as (_ & _ & H). discriminate H.
Defined.

(** C1 fails as stated: with a song playing, a Disconnect error makes Stop
    exit the process instead of reaching Resting; and when Stop does
    return, the player still holds the encode session of the song. *)
Lemma Stop_exits_when_Disconnect_fails :
  abort_of (Stop (with_Disconnect_fails env_ok) (world_of (playing song_a [])))
  = Some FatalExit
  /\ step (Call OpStop (with_Disconnect_fails env_ok)) (playing song_a [])
     = Some (Dead FatalExit
               (result_world (Stop (with_Disconnect_fails env_ok)
                                   (world_of (playing song_a [])))))
  /\ abort_of (Stop env_ok (world_of (playing song_a []))) = None
  /\ EncodingSession (player (result_world (Stop env_ok (world_of (playing song_a [])))))
     = Some (dca.mkEncodeSession 0 (DownloadURL song_a) 0).
Proof. vm_compute. repeat split. Qed.

(** ** 64-bit arithmetic *)

Lemma wrap64_small z : - 2 ^ 63 <= z < 2 ^ 63 -> wrap64 z = z.
Proof.
  intros H. unfold wrap64. rewrite Z.mod_small by lia. lia.
Qed.

Lemma wrap64_add_l x y : wrap64 (wrap64 x + y) = wrap64 (x + y).
Proof.
  unfold wrap64. f_equal.
  replace ((x + 2 ^ 63) mod 2 ^ 64 - 2 ^ 63 + y + 2 ^ 63)
    with ((x + 2 ^ 63) mod 2 ^ 64 + (y + 0)) by ring.
  rewrite Zplus_mod_idemp_l. f_equal. ring.
Qed.

Lemma wrap64_add_r x y : wrap64 (x + wrap64 y) = wrap64 (x + y).
Proof.
  rewrite (Z.add_comm x (wrap64 y)), wrap64_add_l. f_equal. ring.
Qed.

Lemma metrics_position enc e s :
  snd (metrics enc e s)
  = wrap64 (dca.StartTime enc * Second + PlaybackPosition e
            + (Stats_Duration e - PlaybackPosition e)).
Proof.
  unfold metrics; simpl.
  rewrite wrap64_add_l, wrap64_add_r.
  rewrite <- Z.add_assoc, wrap64_add_l. f_equal. ring.
Qed.

(** ** What a step adds to the calls of Play with a song *)

Lemma replays_emit ev w :
  replays (emit ev w) = replays w ++ filter is_replay [ev].
Proof. unfold replays, emit; simpl. apply filter_app. Qed.

Lemma replays_upd f w : replays (upd f w) = replays w.
Proof. reflexivity. Qed.

Lemma replays_unwind k : forall w, replays (unwind k w) = replays w.
Proof.
  induction k as [|[enc|] k IH]; intros w; simpl; auto.
  - rewrite IH, replays_emit. simpl. apply app_nil_r.
  - rewrite IH. reflexivity.
Qed.

Ltac replays_simpl :=
  repeat (rewrite ?replays_unwind, ?replays_upd, ?replays_emit; simpl;
          rewrite ?app_nil_r).

Lemma replays_Play_ready enc e k w :
  replays (result_world (Play_ready enc e k w)) = replays w.
Proof.
  unfold Play_ready.
  destruct (VoiceConnection (player w)) as [vc|]; simpl; auto.
  destruct (discordgo.Ready vc); simpl; auto.
  destruct (Speaking_true_fails e); simpl.
  - now replays_simpl.
  - destruct (CurrentSong (player w)); simpl; now replays_simpl.
Qed.

Lemma replays_Play startAt song e k w :
  replays (result_world (Play startAt song e k w))
  = replays w ++ filter is_replay [EvPlay startAt song].
Proof.
  unfold Play.
  destruct song as [s|]; simpl.
  - destruct (CurrentSong (player w)) as [cur|]; simpl.
    + destruct (NewConfig_fails e); simpl; [now replays_simpl|].
      destruct (EncodeFile_fails e); simpl; [now replays_simpl|].
      rewrite replays_Play_ready. unfold replays; simpl.
      rewrite !filter_app; simpl. now rewrite app_nil_r.
    + now replays_simpl.
  - unfold Dequeue; simpl.
    destruct (SongQueue (player w)) as [|x q]; simpl.
    + destruct (CurrentSong (player w)); simpl; now replays_simpl.
    + destruct (NewConfig_fails e); simpl; [now replays_simpl|].
      destruct (EncodeFile_fails e); simpl; [now replays_simpl|].
      rewrite replays_Play_ready. unfold replays; simpl.
      rewrite !filter_app; simpl. now rewrite !app_nil_r.
Qed.

Lemma replays_Stop e w : replays (result_world (Stop e w)) = replays w.
Proof.
  destruct w as [[vc ss es q cs st sk] t n].
  unfold Stop, upd, emit, ClearQueue, SetVoiceConnection, replays; simpl.
  destruct vc, q, (Speaking_false_fails e), (Disconnect_fails e), ss, es, cs;
    simpl; rewrite ?filter_app; simpl; rewrite ?app_nil_r; reflexivity.
Qed.

Lemma replays_song_is_done err enc e k w :
  replays (result_world (song_is_done err enc e k w)) = replays w.
Proof.
  assert (Hgo : replays (result_world
                 match GetSongQueue (player w) with
                 | [] => match Stop e w with
                         | Returned w0 => Returned (unwind (DeferCleanup enc :: k) w0)
                         | other => other
                         end
                 | _ :: _ => Play 0 None e (DeferCleanup enc :: k) w
                 end) = replays w).
  { destruct (GetSongQueue (player w)).
    - pose proof (replays_Stop e w) as HS.
      destruct (Stop e w); simpl in *; auto.
      rewrite replays_unwind, replays_emit; simpl. now rewrite app_nil_r.
    - rewrite replays_Play; simpl. apply app_nil_r. }
  unfold song_is_done.
  destruct err as [[|msg]|]; auto.
  clear Hgo. destruct w as [[vc ss es q cs st sk] t n]; simpl.
  destruct vc, es; simpl; now replays_simpl.
Qed.

Lemma replays_count_and_finish vc cur enc e k w :
  replays (result_world (count_and_finish vc cur enc e k w)) = replays w.
Proof.
  unfold count_and_finish. rewrite replays_song_is_done.
  now replays_simpl.
Qed.

(** The resume rule for on-demand songs: when [done] fires while the song
    is still Playing, something was encoded, and the position reached lies
    strictly between zero and the duration, the song is played again from
    the whole seconds of that position. *)
Lemma premature_stop_resumes enc e k w vc ss cur cur_enc :
  VoiceConnection (player w) = Some vc ->
  StreamingSession (player w) = Some ss ->
  CurrentSong (player w) = Some cur ->
  Source cur = SourceYouTube ->
  EncodingSession (player w) = Some cur_enc ->
  CurrentStatus (player w) = StatusPlaying ->
  0 < Stats_Duration e ->
  0 < snd (metrics cur_enc e cur) < fst (metrics cur_enc e cur) ->
  select_done enc e k w
  = Play (whole_seconds (snd (metrics cur_enc e cur))) (Some cur) e
         (DeferCleanup enc :: k)
         (emit (EvSpeaking false)
            (emit (EvEncodeCleanup (dca.session cur_enc))
               (emit (EvLogWarn "Song is done, restarting") w))).
Proof.
  intros Hvc Hss Hcs Hsrc Hes Hst Hdur [Hpos Hlt].
  unfold select_done. rewrite Hvc, Hss, Hcs, Hsrc, Hes, Hst.
  destruct (metrics cur_enc e cur) as [songDuration songPosition]; simpl in *.
  apply Z.ltb_lt in Hdur, Hpos, Hlt. rewrite Hdur, Hpos, Hlt; simpl.
  unfold restart; simpl. rewrite Hes. reflexivity.
Qed.

(** The resume rule on the example, in terms of what metrics computes.
    The position is encodeStartOffset + streamedPlaybackPosition +
    (encodedDuration - streamedPlaybackPosition), in 64-bit nanoseconds;
    with a start offset of 10 s, 30 s streamed and 41 s encoded it is 51 s.
    When the duration that metrics returns is 180 s, which takes a value
    of 180 ns from ParseDuration, and the song is still Playing, the done
    case cleans up, stops speaking and calls Play(51, currentSong). *)
Theorem resume_arithmetic :
  (forall enc e s,
      snd (metrics enc e s)
      = wrap64 (dca.StartTime enc * Second + PlaybackPosition e
                + (Stats_Duration e - PlaybackPosition e)))
  /\ (forall enc e s,
        dca.StartTime enc = 10 ->
        PlaybackPosition e = 30 * Second ->
        Stats_Duration e = 41 * Second ->
        snd (metrics enc e s) = 51 * Second)
  /\ (forall enc e k w vc ss cur cur_enc,
        VoiceConnection (player w) = Some vc ->
        StreamingSession (player w) = Some ss ->
        CurrentSong (player w) = Some cur ->
        Source cur = SourceYouTube ->
        EncodingSession (player w) = Some cur_enc ->
        CurrentStatus (player w) = StatusPlaying ->
        dca.StartTime cur_enc = 10 ->
        PlaybackPosition e = 30 * Second ->
        Stats_Duration e = 41 * Second ->
        fst (metrics cur_enc e cur) = 180 * Second ->
        select_done enc e k w
        = Play 51 (Some cur) e (DeferCleanup enc :: k)
            (emit (EvSpeaking false)
               (emit (EvEncodeCleanup (dca.session cur_enc))
                  (emit (EvLogWarn "Song is done, restarting") w)))
        /\ replays (result_world (select_done enc e k w))
           = replays w ++ [EvPlay 51 (Some cur)]).
Proof.
  assert (H51 : forall enc e s,
             dca.StartTime enc = 10 -> PlaybackPosition e = 30 * Second ->
             Stats_Duration e = 41 * Second ->
             snd (metrics enc e s) = 51 * Second).
  { intros enc e s H1 H2 H3. rewrite metrics_position, H1, H2, H3.
    reflexivity. }
  split; [exact metrics_position|]. split; [exact H51|].
  intros enc e k w vc ss cur cur_enc Hvc Hss Hcs Hsrc Hes Hst H1 H2 H3 H180.
  assert (Heq : select_done enc e k w
                = Play 51 (Some cur) e (DeferCleanup enc :: k)
                    (emit (EvSpeaking false)
                       (emit (EvEncodeCleanup (dca.session cur_enc))
                          (emit (EvLogWarn "Song is done, restarting") w)))).
  { rewrite (premature_stop_resumes enc e k w vc ss cur cur_enc); auto.
    - rewrite (H51 cur_enc e cur); auto.
    - rewrite H3. reflexivity.
    - rewrite H180, (H51 cur_enc e cur); auto. split; reflexivity. }
  split; [exact Heq|].
  rewrite Heq, replays_Play. now replays_simpl.
Qed.

Lemma resume_arithmetic_witness :
  select_done (session_0 song_a 10) env_resume [] (world_of playing_from_10)
  = Play 51 (Some song_a) env_resume [DeferCleanup (session_0 song_a 10)]
      (emit (EvSpeaking false)
         (emit (EvEncodeCleanup 0)
            (emit (EvLogWarn "Song is done, restarting")
               (world_of playing_from_10))))
  /\ replays (result_world (select_done (session_0 song_a 10) env_resume []
                                        (world_of playing_from_10)))
     = replays (world_of playing_from_10) ++ [EvPlay 51 (Some song_a)].
Proof.
  apply (proj2 (proj2 resume_arithmetic))
    with (vc := guild_voice) (ss := dca.NewStream (session_0 song_a 10))
         (cur_enc := session_0 song_a 10);
    reflexivity.
Defined.

(** C3: what the code does.  metrics computes the position of the claim:
    10 s + 30 s + (41 s - 30 s) = 51 s.  But it multiplies the duration
    that ParseDuration returns, which is already in nanoseconds, by
    time.Second once more.  For a track of 180 s the product
    180 * 10^9 * 10^9 wraps around in 64 bits to a negative duration, so
    51 s is not below it: with the song Playing and all handles in place
    the done case does not resume (it makes no call of Play), records the
    play count and, the queue being empty, stops.  The same happens
    when ParseDuration fails and returns 0. *)
Theorem resume_with_180s_duration :
  metrics (session_0 song_a 10) env_180s song_a
  = (-4467440737095516160, 51 * Second)
  /\ status_of playing_from_10 = Some StatusPlaying
  /\ replays (result_world
        (select_done (session_0 song_a 10) env_180s []
                     (world_of playing_from_10))) = []
  /\ status_of (after [Done 0 env_180s] playing_from_10) = Some StatusResting
  /\ trace (world_of (after [Done 0 env_180s] playing_from_10))
     = trace (world_of playing_from_10)
       ++ [EvAddPlaybackCountStats "guild" "a"; EvSpeaking false;
           EvDisconnect; EvEncodeStop 0; EvEncodeCleanup 0; EvEncodeCleanup 0]
  /\ metrics (session_0 song_a 10) env_no_duration song_a = (0, 51 * Second)
  /\ replays (result_world
        (select_done (session_0 song_a 10) env_no_duration []
                     (world_of playing_from_10))) = [].
Proof. vm_compute. repeat split. Qed.

(** C8. At the completion of an on-demand song, when the position computed
    by metrics is zero or negative, or nothing was encoded, the done case
    does not resume: it goes on to the statistics call and the end of the
    song, and the step adds no call of Play with a song. *)
Theorem no_resume_without_progress :
  forall enc e k w vc ss cur cur_enc,
    VoiceConnection (player w) = Some vc ->
    StreamingSession (player w) = Some ss ->
    CurrentSong (player w) = Some cur ->
    Source cur = SourceYouTube ->
    EncodingSession (player w) = Some cur_enc ->
    snd (metrics cur_enc e cur) <= 0 \/ Stats_Duration e <= 0 ->
    select_done enc e k w = count_and_finish vc cur enc e k w
    /\ replays (result_world (select_done enc e k w)) = replays w.
Proof.
  intros enc e k w vc ss cur cur_enc Hvc Hss Hcs Hsrc Hes Hno.
  assert (Heq : select_done enc e k w = count_and_finish vc cur enc e k w).
  { unfold select_done. rewrite Hvc, Hss, Hcs, Hsrc, Hes.
    destruct (metrics cur_enc e cur) as [songDuration songPosition];
      simpl in Hno.
    destruct (status_eqb (CurrentStatus (player w)) StatusPlaying); auto.
    destruct (0 <? Stats_Duration e) eqn:Hd, (0 <? songPosition) eqn:Hp;
      simpl; auto.
    apply Z.ltb_lt in Hd, Hp. lia. }
  split; [exact Heq|].
  rewrite Heq. apply replays_count_and_finish.
Qed.

Lemma no_resume_without_progress_witness :
  select_done (session_0 song_a 0) env_ok [] (world_of (playing song_a []))
  = count_and_finish guild_voice song_a (session_0 song_a 0) env_ok []
      (world_of (playing song_a []))
  /\ replays (result_world (select_done (session_0 song_a 0) env_ok []
                                        (world_of (playing song_a []))))
     = replays (world_of (playing song_a [])).
Proof.
  apply no_resume_without_progress
    with (ss := dca.NewStream (session_0 song_a 0))
         (cur_enc := session_0 song_a 0);
    try reflexivity.
  right. vm_compute. discriminate.
Defined.

(** ** Frames of Play *)

Lemma player_emit ev w : player (emit ev w) = player w.
Proof. reflexivity. Qed.

Lemma trace_emit ev w : trace (emit ev w) = trace w ++ [ev].
Proof. reflexivity. Qed.

Lemma unwind_keeps k : forall w,
  VoiceConnection (player (unwind k w)) = VoiceConnection (player w)
  /\ StreamingSession (player (unwind k w)) = StreamingSession (player w)
  /\ EncodingSession (player (unwind k w)) = EncodingSession (player w)
  /\ SongQueue (player (unwind k w)) = SongQueue (player w)
  /\ CurrentSong (player (unwind k w)) = CurrentSong (player w)
  /\ SkipInterrupt (player (unwind k w)) = SkipInterrupt (player w)
  /\ (In EvDisconnect (trace (unwind k w)) -> In EvDisconnect (trace w)).
Proof.
  induction k as [|[enc|] k IH]; intros w; simpl.
  - tauto.
  - destruct (IH (emit (EvEncodeCleanup (dca.session enc)) w))
      as (H1 & H2 & H3 & H4 & H5 & H6 & H7).
    repeat split; auto.
    intros H. apply H7 in H. simpl in H. apply in_app_or in H.
    destruct H as [H|[H|[]]]; [exact H | discriminate H].
  - destruct (IH (upd (with_CurrentStatus StatusPlaying) w))
      as (H1 & H2 & H3 & H4 & H5 & H6 & H7).
    repeat split; auto.
Qed.

Ltac no_disconnect H :=
  repeat (simpl in H; apply in_app_or in H;
          destruct H as [H|[H|[]]]; [|discriminate H]);
  try exact H.

(** Play with a song given leaves the queue, the current song and the voice
    connection alone, and never disconnects. *)
Lemma Play_again_keeps startAt s e k w :
  SongQueue (player (result_world (Play startAt (Some s) e k w)))
  = SongQueue (player w)
  /\ CurrentSong (player (result_world (Play startAt (Some s) e k w)))
     = CurrentSong (player w)
  /\ VoiceConnection (player (result_world (Play startAt (Some s) e k w)))
     = VoiceConnection (player w)
  /\ (In EvDisconnect (trace (result_world (Play startAt (Some s) e k w))) ->
      In EvDisconnect (trace w)).
Proof.
  destruct w as [[vc ss es q cs st sk] t n].
  unfold Play, Play_ready; simpl.
  destruct cs as [cur|]; simpl.
  2: { repeat split; auto. intros H. now no_disconnect H. }
  destruct (NewConfig_fails e); simpl.
  { repeat split; auto. intros H. now no_disconnect H. }
  destruct (EncodeFile_fails e); simpl.
  { match goal with |- context [unwind k ?x] =>
      destruct (unwind_keeps k x) as (H1 & H2 & H3 & H4 & H5 & H6 & H7) end.
    rewrite H1, H4, H5. repeat split; auto.
    intros H. apply H7 in H. now no_disconnect H. }
  destruct vc as [vc|]; simpl.
  2: { repeat split; auto. intros H. now no_disconnect H. }
  destruct (discordgo.Ready vc); simpl.
  2: { repeat split; auto. intros H. now no_disconnect H. }
  destruct (Speaking_true_fails e); simpl.
  { match goal with |- context [unwind k ?x] =>
      destruct (unwind_keeps k x) as (H1 & H2 & H3 & H4 & H5 & H6 & H7) end.
    rewrite H1, H4, H5. repeat split; auto.
    intros H. apply H7 in H. now no_disconnect H. }
  repeat split; auto. intros H. now no_disconnect H.
Qed.

(** ** Live streams *)

(** C2, as the code has it.  The value received from done is dropped, so
    every completion is handled alike.  Take a live-stream song as current
    song, with the voice connection, the stream and the encode session in
    place.  When the status is still Playing, the done case cleans up the
    encode session, stops speaking and calls Play(0, currentSong); that
    step leaves the queue and the current song alone, keeps the voice
    connection and does not disconnect, so it neither advances nor stops.
    When the status is not Playing, the live stream is not restarted:
    AddPlaybackCountStats is called for it, and then, unless that call
    returns an error other than io.EOF, the engine calls Stop if the queue
    is empty and Play(0, nil) otherwise; on such an error it stops
    speaking, goes to Resting and cleans up, with the queue, the current
    song and the connection left as they are. *)
Theorem live_stream_restarts_while_Playing :
  forall enc e k w vc ss cur cur_enc,
    VoiceConnection (player w) = Some vc ->
    StreamingSession (player w) = Some ss ->
    CurrentSong (player w) = Some cur ->
    Source cur = SourceStream ->
    EncodingSession (player w) = Some cur_enc ->
    let r := select_done enc e k w in
    (CurrentStatus (player w) = StatusPlaying ->
     r = Play 0 (Some cur) e (DeferCleanup enc :: k)
           (emit (EvSpeaking false)
              (emit (EvEncodeCleanup (dca.session cur_enc))
                 (emit (EvLogWarn "Song is done, restarting") w)))
     /\ replays (result_world r) = replays w ++ [EvPlay 0 (Some cur)]
     /\ SongQueue (player (result_world r)) = SongQueue (player w)
     /\ CurrentSong (player (result_world r)) = Some cur
     /\ VoiceConnection (player (result_world r)) = Some vc
     /\ (In EvDisconnect (trace (result_world r)) -> In EvDisconnect (trace w)))
    /\ (CurrentStatus (player w) <> StatusPlaying ->
        r = (let w1 := emit (EvAddPlaybackCountStats
                               (discordgo.GuildID vc) (ID cur)) w in
             match CountStats_error e with
             | Some (OtherError _) =>
                 Returned
                   (unwind k
                      (mkWorld (with_CurrentStatus StatusResting (player w))
                         (trace w
                          ++ [EvAddPlaybackCountStats (discordgo.GuildID vc) (ID cur);
                              EvLogWarn "Song is done but an unexpected error occurred";
                              EvSpeaking false;
                              EvEncodeCleanup (dca.session cur_enc);
                              EvEncodeCleanup (dca.session enc)])
                         (sessions w)))
             | _ =>
                 match SongQueue (player w) with
                 | [] => match Stop e w1 with
                         | Returned w2 =>
                             Returned (unwind (DeferCleanup enc :: k) w2)
                         | other => other
                         end
                 | _ :: _ => Play 0 None e (DeferCleanup enc :: k) w1
                 end
             end)
        /\ replays (result_world r) = replays w).
Proof.
  intros enc e k w vc ss cur cur_enc Hvc Hss Hcs Hsrc Hes r. split.
  - intros Hst.
    assert (Heq : r = Play 0 (Some cur) e (DeferCleanup enc :: k)
                        (emit (EvSpeaking false)
                           (emit (EvEncodeCleanup (dca.session cur_enc))
                              (emit (EvLogWarn "Song is done, restarting") w)))).
    { unfold r, select_done. rewrite Hvc, Hss, Hcs, Hsrc, Hst; simpl.
      unfold restart; simpl. rewrite Hes. reflexivity. }
    split; [exact Heq|]. rewrite Heq.
    match goal with |- context [Play 0 (Some cur) e ?k' ?x] =>
      destruct (Play_again_keeps 0 cur e k' x) as (Hq & Hc & Hv & Hd) end.
    rewrite !player_emit in Hq, Hc, Hv.
    rewrite replays_Play, Hq, Hc, Hv. repeat split; auto.
    + now replays_simpl.
    + intros H. apply Hd in H. rewrite !trace_emit in H. now no_disconnect H.
  - intros Hst.
    assert (Hnp : status_eqb (CurrentStatus (player w)) StatusPlaying = false)
      by (destruct (CurrentStatus (player w)); auto; congruence).
    assert (Hcf : r = count_and_finish vc cur enc e k w).
    { unfold r, select_done. rewrite Hvc, Hss, Hcs, Hsrc, Hnp. reflexivity. }
    split; [|rewrite Hcf; apply replays_count_and_finish].
    rewrite Hcf. clear Hcf r Hnp Hst.
    destruct w as [[vc0 ss0 es q cs st sk] t n]; simpl in *.
    subst vc0 ss0 cs es.
    unfold count_and_finish, song_is_done; simpl.
    destruct (CountStats_error e) as [[|msg]|]; try reflexivity.
    unfold emit, upd; simpl. rewrite <- !app_assoc. reflexivity.
Qed.

Lemma live_stream_restarts_while_Playing_witness :
  select_done (session_0 radio 0) env_ok [] (world_of (playing radio [song_a]))
  = Play 0 (Some radio) env_ok [DeferCleanup (session_0 radio 0)]
      (emit (EvSpeaking false)
         (emit (EvEncodeCleanup 0)
            (emit (EvLogWarn "Song is done, restarting")
               (world_of (playing radio [song_a])))))
  /\ SongQueue (player (result_world
        (select_done (session_0 radio 0) env_ok []
                     (world_of (playing radio [song_a]))))) = [song_a]
  /\ replays (result_world
        (select_done (session_0 radio 0) env_ok []
           (world_of (after [Call OpPause env_ok] (playing radio [song_a])))))
     = replays (world_of (after [Call OpPause env_ok] (playing radio [song_a]))).
Proof.
  destruct (live_stream_restarts_while_Playing (session_0 radio 0) env_ok []
              (world_of (playing radio [song_a])) guild_voice
              (dca.NewStream (session_0 radio 0)) radio (session_0 radio 0))
    as [Hplaying _]; try reflexivity.
  destruct (Hplaying eq_refl) as (H1 & _ & H3 & _).
  destruct (live_stream_restarts_while_Playing (session_0 radio 0) env_ok []
              (world_of (after [Call OpPause env_ok] (playing radio [song_a])))
              guild_voice
              (dca.SetPaused true (dca.NewStream (session_0 radio 0)))
              radio (session_0 radio 0))
    as [_ Hpaused]; try reflexivity.
  destruct Hpaused as [_ H4]; [vm_compute; discriminate|].
  split; [exact H1 | split; [exact H3 | exact H4]].
Defined.

(** C2 fails as stated: the restart is guarded by the status.  A live
    stream is playing; Pause is called; then done fires.  The play count of
    the stream is recorded.  With an empty queue the done case then calls
    Stop (the connection is dropped and the status is Resting); with a song
    queued it advances to that song.  In neither run is Play called again
    with the live stream. *)
Lemma live_stream_completion_while_Paused :
  let stopped := after [Call OpPause env_ok; Done 0 env_ok] (playing radio []) in
  let advanced := after [Call OpPause env_ok; Done 0 env_ok] (playing radio [song_a]) in
  status_of (after [Call OpPause env_ok] (playing radio [])) = Some StatusPaused
  /\ status_of stopped = Some StatusResting
  /\ VoiceConnection (player (world_of stopped)) = None
  /\ In EvDisconnect (trace (world_of stopped))
  /\ replays (world_of stopped) = []
  /\ CurrentSong (player (world_of advanced)) = Some song_a
  /\ SongQueue (player (world_of advanced)) = []
  /\ replays (world_of advanced) = []
  /\ In (EvAddPlaybackCountStats "guild" "radio") (trace (world_of stopped))
  /\ In (EvAddPlaybackCountStats "guild" "radio") (trace (world_of advanced)).
Proof. vm_compute. repeat split; tauto. Qed.

(** ** Failures of Play before the stream exists *)

(** C6, as the code has it.  When a song is at hand and the configuration
    loads, a failing EncodeFile, or a failing Speaking(true) on a ready
    connection, makes Play log the error and return with the status, the
    voice connection, the stream session and the skip channel as they were.
    Nothing is rolled back: called without a song, Play has already taken
    the head of the queue as current song; and the encode session is
    overwritten, by nil after a failed EncodeFile and by the new session
    after a failed Speaking(true). *)
Theorem Play_failure_keeps_status :
  forall startAt song e w cur,
    loaded song (player w) = Some cur ->
    NewConfig_fails e = false ->
    EncodeFile_fails e = true
    \/ (connection_ready w = true /\ Speaking_true_fails e = true) ->
    exists w',
      Play startAt song e [] w = Returned w'
      /\ CurrentStatus (player w') = CurrentStatus (player w)
      /\ VoiceConnection (player w') = VoiceConnection (player w)
      /\ StreamingSession (player w') = StreamingSession (player w)
      /\ SkipInterrupt (player w') = SkipInterrupt (player w)
      /\ (exists msg, In (EvLogError msg) (trace w'))
      /\ CurrentSong (player w') = Some cur
      /\ SongQueue (player w')
         = match song with
           | Some _ => SongQueue (player w)
           | None => tl (SongQueue (player w))
           end
      /\ EncodingSession (player w')
         = if EncodeFile_fails e then None
           else Some (dca.mkEncodeSession (sessions w) (DownloadURL cur) startAt).
Proof.
  intros startAt song e [[vc ss es q cs st sk] t n] cur Hl Hc Hf.
  unfold connection_ready in Hf. unfold Play, Play_ready, loaded, Dequeue in *.
  simpl in *.
  destruct song as [s|]; simpl in *.
  - subst cs. rewrite Hc.
    destruct (EncodeFile_fails e) eqn:He; simpl.
    + eexists. repeat split.
      exists "Error encoding song". apply in_or_app. right. left. reflexivity.
    + destruct Hf as [Hf|[Hr Hs]]; [discriminate|].
      destruct vc as [vc|]; [|discriminate]. rewrite Hr, Hs. simpl.
      eexists. repeat split.
      exists "Error connecting to Discord voice".
      rewrite !trace_emit, !in_app_iff. simpl. tauto.
  - destruct q as [|x q]; simpl in *; [discriminate|].
    inversion Hl; subst x. rewrite Hc.
    destruct (EncodeFile_fails e) eqn:He; simpl.
    + eexists. repeat split.
      exists "Error encoding song". apply in_or_app. right. left. reflexivity.
    + destruct Hf as [Hf|[Hr Hs]]; [discriminate|].
      destruct vc as [vc|]; [|discriminate]. rewrite Hr, Hs. simpl.
      eexists. repeat split.
      exists "Error connecting to Discord voice".
      rewrite !trace_emit, !in_app_iff. simpl. tauto.
Qed.

Lemma Play_failure_keeps_status_witness :
  CurrentStatus (player (result_world
     (Play 0 None (with_EncodeFile_fails env_ok) [] queued_a))) = StatusResting
  /\ EncodingSession (player (result_world
     (Play 0 None (with_EncodeFile_fails env_ok) [] queued_a))) = None.
Proof.
  destruct (Play_failure_keeps_status 0 None (with_EncodeFile_fails env_ok)
              queued_a song_a)
    as (w' & Heq & Hst & _ & _ & _ & _ & _ & _ & Hes);
    [reflexivity | reflexivity | left; reflexivity |].
  rewrite Heq. cbn [result_world]. rewrite Hst, Hes. split; reflexivity.
Defined.

(** C6 fails as stated: with [song_a] queued and nothing current,
    Play(0, nil) whose EncodeFile fails returns with the queue emptied and
    [song_a] as current song; when instead Speaking(true) fails, the player
    is also left holding the new encode session. *)
Lemma Play_failure_changes_queue_and_song :
  let enc_fails :=
    Play 0 None (with_EncodeFile_fails env_ok) [] queued_a in
  let speaking_fails :=
    Play 0 None (with_Speaking_true_fails env_ok) [] queued_a in
  SongQueue (player queued_a) = [song_a]
  /\ CurrentSong (player queued_a) = None
  /\ EncodingSession (player queued_a) = None
  /\ abort_of enc_fails = None
  /\ SongQueue (player (result_world enc_fails)) = []
  /\ CurrentSong (player (result_world enc_fails)) = Some song_a
  /\ abort_of speaking_fails = None
  /\ SongQueue (player (result_world speaking_fails)) = []
  /\ CurrentSong (player (result_world speaking_fails)) = Some song_a
  /\ EncodingSession (player (result_world speaking_fails))
     = Some (session_0 song_a 0).
Proof. vm_compute. repeat split. Qed.

(** ** Skip *)

(** C7: what the code does.  On an engine at rest with no current song, an
    empty queue and no skip signal pending, Skip sends the skip signal,
    calls Play(0, nil), which finds the queue empty, and then sets the
    status to Playing: the status has changed and a skip signal is left
    pending.  On a joined engine the pending signal is received by the
    select of the next Play, which stops the song it has just started. *)
Theorem Skip_on_idle_engine :
  (forall e vc ss es t n,
      Skip e (mkWorld (mkPlayer vc ss es [] None StatusResting []) t n)
      = Returned (mkWorld (mkPlayer vc ss es [] None StatusPlaying [true])
                          (t ++ [EvPlay 0 None]) n))
  /\ (let next :=
        after [Call OpSkip env_ok; Call (OpEnqueue song_a) env_ok;
               Call (OpPlay 0 None) env_ok] joined in
      threads_of next = [mkThread AtSelect (session_0 song_a 0) []]
      /\ SkipInterrupt (player (world_of next)) = [true]
      /\ step (Skipped 0) next
         = Some (Live (emit (EvEncodeCleanup 0)
                         (emit (EvEncodeCleanup 0)
                            (emit (EvSpeaking false)
                               (upd (with_SkipInterrupt []) (world_of next)))))
                      [])).
Proof. split; [reflexivity | vm_compute; repeat split]. Qed.


(** ** The invariant of the reachable states *)

Arguments Play : simpl never.
Arguments Stop : simpl never.

Lemma unwind_status k : forall w,
  CurrentStatus (player (unwind k w)) = CurrentStatus (player w)
  \/ CurrentStatus (player (unwind k w)) = StatusPlaying.
Proof.
  induction k as [|[enc|] k IH]; intros w; simpl; auto.
  - destruct (IH (emit (EvEncodeCleanup (dca.session enc)) w)); auto.
  - destruct (IH (upd (with_CurrentStatus StatusPlaying) w)); auto.
Qed.

Lemma unwind_Inv k w : Inv w -> Inv (unwind k w).
Proof.
  unfold Inv. intros (H1 & H2 & H3).
  destruct (unwind_keeps k w) as (K1 & K2 & _ & _ & _ & K6 & _).
  rewrite K1, K2, K6. repeat split; auto.
  intros Hp. destruct (unwind_status k w) as [E|E]; rewrite E in Hp;
    [auto | discriminate].
Qed.

Ltac solve_Inv :=
  simpl;
  lazymatch goal with
  | |- True => exact I
  | |- Inv (unwind _ _) => apply unwind_Inv; solve_Inv
  | |- Inv _ =>
      unfold Inv in *; simpl in *;
      intuition (congruence || lia || discriminate)
  end.

Lemma Play_ready_Inv enc e k w : Inv w -> Inv_result (Play_ready enc e k w).
Proof.
  destruct w as [[vc ss es q cs st sk] t n]. intros H.
  unfold Play_ready; simpl.
  destruct vc as [vc|]; [|solve_Inv].
  destruct (discordgo.Ready vc); [|solve_Inv].
  destruct (Speaking_true_fails e); [solve_Inv|].
  destruct cs; solve_Inv.
Qed.

Lemma Play_Inv startAt song e k w : Inv w -> Inv_result (Play startAt song e k w).
Proof.
  destruct w as [[vc ss es q cs st sk] t n]. intros H.
  unfold Play, Dequeue; simpl.
  destruct song as [s|]; simpl.
  - destruct cs as [cur|]; [|solve_Inv].
    destruct (NewConfig_fails e); [solve_Inv|].
    destruct (EncodeFile_fails e); [solve_Inv|].
    apply Play_ready_Inv. solve_Inv.
  - destruct q as [|x q]; simpl; [solve_Inv|].
    destruct (NewConfig_fails e); [solve_Inv|].
    destruct (EncodeFile_fails e); [solve_Inv|].
    apply Play_ready_Inv. solve_Inv.
Qed.

Lemma Stop_Inv e w : Inv w -> Inv_result (Stop e w).
Proof.
  destruct w as [[vc ss es q cs st sk] t n]. intros H.
  unfold Stop, upd, emit, ClearQueue, SetVoiceConnection; simpl.
  destruct vc, q, (Speaking_false_fails e), (Disconnect_fails e), ss, es, cs;
    solve_Inv.
Qed.

Lemma Pause_Inv w : Inv w -> Inv (Pause w).
Proof.
  destruct w as [[vc ss es q cs st sk] t n]. intros H.
  unfold Pause; simpl.
  destruct vc, ss, st; solve_Inv.
Qed.

Lemma select_skip_Inv enc k w r :
  Inv w -> select_skip enc k w = Some r -> Inv_result r.
Proof.
  destruct w as [[vc ss es q cs st sk] t n]. intros H.
  unfold select_skip; simpl.
  destruct sk as [|b sk]; [discriminate|].
  destruct vc, es; simpl; intros E; inversion E; subst r; solve_Inv.
Qed.

Lemma restart_Inv startAt cur enc e k w :
  Inv w -> Inv_result (restart startAt cur enc e k w).
Proof.
  intros H. unfold restart.
  destruct (EncodingSession (player (emit _ w))); [|exact I].
  apply Play_Inv. exact H.
Qed.

Lemma song_is_done_Inv err enc e k w :
  Inv w -> Inv_result (song_is_done err enc e k w).
Proof.
  intros H.
  assert (Hgo : Inv_result
                 match GetSongQueue (player w) with
                 | [] => match Stop e w with
                         | Returned w0 => Returned (unwind (DeferCleanup enc :: k) w0)
                         | other => other
                         end
                 | _ :: _ => Play 0 None e (DeferCleanup enc :: k) w
                 end).
  { destruct (GetSongQueue (player w)).
    - pose proof (Stop_Inv e w H) as HS.
      destruct (Stop e w); simpl in *; auto.
      apply unwind_Inv. exact HS.
    - apply Play_Inv. exact H. }
  unfold song_is_done.
  destruct err as [[|msg]|]; auto.
  clear Hgo. destruct w as [[vc ss es q cs st sk] t n]; simpl.
  destruct vc, es; solve_Inv.
Qed.

Lemma count_and_finish_Inv vc cur enc e k w :
  Inv w -> Inv_result (count_and_finish vc cur enc e k w).
Proof.
  intros H. unfold count_and_finish. apply song_is_done_Inv. exact H.
Qed.

Lemma select_done_Inv enc e k w : Inv w -> Inv_result (select_done enc e k w).
Proof.
  intros H. unfold select_done.
  destruct (VoiceConnection (player w)) as [vc|];
    [|apply song_is_done_Inv; exact H].
  destruct (StreamingSession (player w)) as [ss|];
    [|apply song_is_done_Inv; exact H].
  destruct (CurrentSong (player w)) as [cur|];
    [|apply song_is_done_Inv; exact H].
  destruct (Source cur).
  - destruct (EncodingSession (player w)) as [cur_enc|]; [|exact I].
    destruct (metrics cur_enc e cur) as [songDuration songPosition].
    destruct (status_eqb _ _); [|apply count_and_finish_Inv; exact H].
    destruct (_ && _); [|apply count_and_finish_Inv; exact H].
    destruct (_ <? _);
      [apply restart_Inv | apply count_and_finish_Inv]; exact H.
  - destruct (status_eqb _ _);
      [apply restart_Inv | apply count_and_finish_Inv]; exact H.
Qed.

Lemma send_skip_Inv w :
  Inv w -> SkipInterrupt (player w) = [] -> Inv (send_skip w).
Proof.
  destruct w as [[vc ss es q cs st sk] t n]. simpl. intros H ->. solve_Inv.
Qed.

Lemma Skip_Inv e w : Inv w -> Inv_result (Skip e w).
Proof.
  destruct w as [[vc ss es q cs st sk] t n]. intros H.
  unfold Skip; simpl.
  destruct st; simpl.
  - destruct cs as [cur|], sk as [|b sk]; try solve_Inv.
    + destruct vc as [vc|]; [|exact I].
      apply Play_Inv. solve_Inv.
    + apply Play_Inv. solve_Inv.
  - destruct vc as [vc|], cs as [cur|]; try solve_Inv.
    destruct sk as [|b sk]; [|solve_Inv].
    apply Play_Inv. solve_Inv.
  - destruct vc as [vc|], cs as [cur|]; try solve_Inv.
    destruct sk as [|b sk]; [|solve_Inv].
    apply Play_Inv. solve_Inv.
  - solve_Inv.
Qed.

Lemma Unpause_Inv e w : Inv w -> Inv_result (Unpause e w).
Proof.
  destruct w as [[vc ss es q cs st sk] t n]. intros H.
  unfold Unpause; simpl.
  destruct vc as [vc|]; [|solve_Inv].
  destruct ss as [s|], st, q as [|x q]; simpl; try solve_Inv;
    apply Play_Inv; solve_Inv.
Qed.

Lemma call_Inv op e w :
  engine_op op = true -> Inv w -> Inv_result (call op e w).
Proof.
  intros Hop H. destruct op; simpl in *.
  - apply Play_Inv; exact H.
  - apply Pause_Inv; exact H.
  - apply Unpause_Inv; exact H.
  - apply Skip_Inv; exact H.
  - apply Stop_Inv; exact H.
  - destruct w as [[vc ss es q cs st sk] t n]. solve_Inv.
  - destruct w as [[vc ss es q cs st sk] t n]. unfold Dequeue; simpl.
    destruct q; solve_Inv.
  - destruct w as [[vc ss es q cs st sk] t n]. unfold upd, ClearQueue; simpl.
    destruct q; solve_Inv.
  - destruct v as [v|]; [|discriminate].
    destruct w as [[vc ss es q cs st sk] t n]. solve_Inv.
  - discriminate.
Qed.

Lemma settle_Inv r ts : Inv_result r -> Inv_system (settle r ts).
Proof. destruct r; simpl; auto. Qed.

Lemma step_Inv l s s' :
  engine_label l = true -> Inv_system s -> step l s = Some s' -> Inv_system s'.
Proof.
  intros Hl H. destruct s as [w ts|a w]; simpl; [|discriminate].
  simpl in H. destruct l as [op e|i e|i|i e]; simpl.
  - intros E; inversion E; subst s'. apply settle_Inv, call_Inv; auto.
  - destruct (nth_error ts i) as [[[|] enc k]|]; try discriminate.
    intros E; inversion E; subst s'. apply settle_Inv, select_done_Inv; auto.
  - destruct (nth_error ts i) as [[[|] enc k]|]; try discriminate.
    destruct (select_skip enc k w) as [r|] eqn:Hr; [|discriminate].
    intros E; inversion E; subst s'.
    apply settle_Inv, (select_skip_Inv enc k w r); auto.
  - destruct (nth_error ts i) as [[[|] enc k]|]; try discriminate.
    destruct (connection_ready w); [|discriminate].
    intros E; inversion E; subst s'. apply settle_Inv, Play_ready_Inv; auto.
Qed.

Lemma run_Inv ls : forall s s',
  forallb engine_label ls = true -> Inv_system s -> run ls s = Some s' ->
  Inv_system s'.
Proof.
  induction ls as [|l ls IH]; simpl; intros s s' Hls H E.
  - inversion E; subst; exact H.
  - apply andb_prop in Hls. destruct Hls as [Hl Hls].
    destruct (step l s) as [s1|] eqn:Hs; [|discriminate].
    apply (IH s1 s'); auto. apply (step_Inv l s s1); auto.
Qed.

Lemma reachable_Inv s : reachable s -> Inv_system s.
Proof.
  intros (g & ls & Hls & E).
  apply (run_Inv ls (Live (initial g) []) s Hls); [|exact E].
  unfold Inv_system, Inv, initial; simpl. repeat split; auto; discriminate.
Qed.


Lemma Stop_Resting e w w' :
  Stop e w = Returned w' ->
  CurrentStatus (player w') = StatusResting /\ CurrentSong (player w') = None.
Proof.
  destruct w as [[vc ss es q cs st sk] t n].
  unfold Stop, upd, emit, ClearQueue, SetVoiceConnection; simpl.
  destruct vc, q, (Speaking_false_fails e), (Disconnect_fails e), ss, es, cs;
    simpl; intros E; inversion E; subst w'; split; reflexivity.
Qed.

Lemma Play_on_empty_queue startAt e w :
  SongQueue (player w) = [] ->
  exists w',
    Play startAt None e [] w = Returned w'
    /\ CurrentStatus (player w') = StatusResting
    /\ CurrentSong (player w') = None.
Proof.
  destruct w as [[vc ss es q cs st sk] t n]. simpl. intros ->.
  eexists. unfold Play, Dequeue. simpl. repeat split.
Qed.

(** C4, as the code has it.  The status, the current song and the encode
    session are tied together only at some points: a new player is Resting
    with no current song and no encode session; a Stop that returns, and a
    Play(_, nil) that finds the queue empty, leave the engine Resting with
    no current song.  In between the code allows a Resting engine to have a
    current song (Skip has a branch for it).  What holds in every state
    reachable through Play, Pause, Unpause, Skip, Stop, Enqueue, Dequeue,
    ClearQueue, the attaching of a voice connection and the goroutines
    parked in Play is weaker: a Paused engine has a stream session, and an
    engine with a stream session has a voice connection. *)
Theorem status_and_handles :
  (forall guildID,
      CurrentStatus (NewPlayer guildID) = StatusResting
      /\ CurrentSong (NewPlayer guildID) = None
      /\ EncodingSession (NewPlayer guildID) = None)
  /\ (forall e w w',
        Stop e w = Returned w' ->
        CurrentStatus (player w') = StatusResting
        /\ CurrentSong (player w') = None)
  /\ (forall startAt e w,
        SongQueue (player w) = [] ->
        exists w',
          Play startAt None e [] w = Returned w'
          /\ CurrentStatus (player w') = StatusResting
          /\ CurrentSong (player w') = None)
  /\ (forall w ts,
        reachable (Live w ts) ->
        (CurrentStatus (player w) = StatusPaused ->
         StreamingSession (player w) <> None
         /\ VoiceConnection (player w) <> None)
        /\ (StreamingSession (player w) <> None ->
            VoiceConnection (player w) <> None)).
Proof.
  split; [intros g; repeat split|].
  split; [exact Stop_Resting|].
  split; [exact Play_on_empty_queue|].
  intros w ts H. apply reachable_Inv in H. destruct H as (_ & H2 & H3).
  split; auto.
Qed.

Lemma status_and_handles_witness :
  StreamingSession (player (world_of paused_a)) <> None
  /\ VoiceConnection (player (world_of paused_a)) <> None.
Proof.
  destruct status_and_handles as (_ & _ & _ & H).
  apply (H (world_of paused_a) (threads_of paused_a)).
  - exists "guild",
      [Call (OpSetVoiceConnection (Some guild_voice)) env_ok;
       Call (OpEnqueue song_a) env_ok; Call (OpPlay 0 None) env_ok;
       Call OpPause env_ok].
    split; vm_compute; reflexivity.
  - vm_compute; reflexivity.
Defined.

(** C4 fails as stated.  After Enqueue(a) and a Play(0, nil) whose
    EncodeFile fails, the engine is Resting with [song_a] as current song.
    After Stop on a playing engine, the engine is Resting and the player
    still holds the encode session.  Both states are reachable. *)
Lemma Resting_with_song_or_session :
  reachable encode_failed_a
  /\ status_of encode_failed_a = Some StatusResting
  /\ CurrentSong (player (world_of encode_failed_a)) = Some song_a
  /\ reachable stopped_a
  /\ status_of stopped_a = Some StatusResting
  /\ CurrentSong (player (world_of stopped_a)) = None
  /\ EncodingSession (player (world_of stopped_a)) = Some (session_0 song_a 0).
Proof.
  split.
  { exists "guild",
      [Call (OpEnqueue song_a) env_ok;
       Call (OpPlay 0 None) (with_EncodeFile_fails env_ok)].
    split; vm_compute; reflexivity. }
  split; [vm_compute; reflexivity|].
  split; [vm_compute; reflexivity|].
  split.
  { exists "guild",
      [Call (OpSetVoiceConnection (Some guild_voice)) env_ok;
       Call (OpEnqueue song_a) env_ok; Call (OpPlay 0 None) env_ok;
       Call OpStop env_ok].
    split; vm_compute; reflexivity. }
  vm_compute. repeat split.
Qed.

(** * Further properties of the engine *)

(** ** The queue as a whole *)

Lemma Enqueue_all_queue playlist : forall p,
  Enqueue_all playlist p = with_SongQueue (SongQueue p ++ playlist) p.
Proof.
  induction playlist as [|s l IH]; intros [vc ss es q cs st sk]; simpl.
  - unfold with_SongQueue; simpl. now rewrite app_nil_r.
  - rewrite IH. unfold Enqueue, with_SongQueue; simpl.
    now rewrite <- app_assoc.
Qed.

Lemma Dequeue_n_queue n : forall p,
  Dequeue_n n p
  = (map Some (firstn n (SongQueue p))
       ++ repeat None (n - List.length (SongQueue p)),
     with_SongQueue (skipn n (SongQueue p)) p).
Proof.
  induction n as [|n IH]; intros [vc ss es q cs st sk].
  - reflexivity.
  - cbn [Dequeue_n]. unfold Dequeue. cbn [SongQueue].
    destruct q as [|x q].
    + rewrite IH. cbn [SongQueue]. rewrite firstn_nil, !skipn_nil.
      cbn. rewrite Nat.sub_0_r. reflexivity.
    + rewrite IH. reflexivity.
Qed.

(** Whatever is queued, enqueuing a playlist and then calling Dequeue [n]
    times returns the songs that were already queued, then the playlist, in
    order, then nil for every call beyond the end; what is left in the queue
    is the rest of that sequence, and no other field of the player has
    changed. *)
Theorem queue_order_preserved :
  forall playlist n p,
    let all := SongQueue p ++ playlist in
    Dequeue_n n (Enqueue_all playlist p)
    = (map Some (firstn n all) ++ repeat None (n - List.length all),
       with_SongQueue (skipn n all) p).
Proof.
  intros playlist n p. cbv zeta.
  rewrite Dequeue_n_queue, Enqueue_all_queue.
  destruct p; reflexivity.
Qed.

(** ** Pause and Unpause *)

(** Pause acts only on an engine that is Playing with a voice connection
    and a stream session: the stream is paused and the status becomes
    Paused, nothing else changes.  In every other state Pause changes
    nothing and makes no external call. *)
Theorem Pause_only_while_Playing :
  forall w,
    (VoiceConnection (player w) = None
     \/ StreamingSession (player w) = None
     \/ CurrentStatus (player w) <> StatusPlaying -> Pause w = w)
    /\ (forall vc s,
          VoiceConnection (player w) = Some vc ->
          StreamingSession (player w) = Some s ->
          CurrentStatus (player w) = StatusPlaying ->
          Pause w
          = mkWorld
              (with_CurrentStatus StatusPaused
                 (with_StreamingSession (Some (dca.SetPaused true s)) (player w)))
              (trace w ++ [EvSetPaused true]) (sessions w)).
Proof.
  intros [[vc ss es q cs st sk] t n]; unfold Pause; simpl. split.
  - intros H. destruct vc, ss, st; auto; exfalso; intuition congruence.
  - intros v s Hv Hs Hst. subst. reflexivity.
Qed.

Lemma Pause_only_while_Playing_witness :
  Pause (world_of stopped_a) = world_of stopped_a
  /\ CurrentStatus (player (Pause (world_of (playing song_a [])))) = StatusPaused.
Proof.
  destruct (Pause_only_while_Playing (world_of stopped_a)) as [H1 _].
  destruct (Pause_only_while_Playing (world_of (playing song_a []))) as [_ H2].
  split.
  - apply H1. left. vm_compute. reflexivity.
  - rewrite (H2 guild_voice (dca.NewStream (session_0 song_a 0)));
      vm_compute; reflexivity.
Defined.

(** Pause followed by Unpause on a Playing engine whose stream is not
    paused gives back exactly the player of before; the only external calls
    are SetPaused(true) and SetPaused(false). *)
Theorem Pause_Unpause_round_trip :
  forall e w vc s,
    VoiceConnection (player w) = Some vc ->
    StreamingSession (player w) = Some s ->
    dca.paused s = false ->
    CurrentStatus (player w) = StatusPlaying ->
    Unpause e (Pause w)
    = Returned (mkWorld (player w)
                  (trace w ++ [EvSetPaused true; EvSetPaused false])
                  (sessions w)).
Proof.
  intros e [[vc0 ss es q cs st sk] t n] vc [enc pz]; simpl.
  intros -> -> -> ->. unfold Pause, Unpause, emit, upd; simpl.
  rewrite <- app_assoc. destruct q; reflexivity.
Qed.

Lemma Pause_Unpause_round_trip_witness :
  player (result_world (Unpause env_ok (Pause (world_of (playing song_a [song_b])))))
  = player (world_of (playing song_a [song_b])).
Proof.
  rewrite (Pause_Unpause_round_trip env_ok (world_of (playing song_a [song_b]))
             guild_voice (dca.NewStream (session_0 song_a 0)));
    vm_compute; reflexivity.
Defined.

(** Unpause does nothing at all (no change, no external call) when there
    is no voice connection, when the status is Playing or Error, when the
    engine is Resting with an empty queue, and when it is Paused without a
    stream session. *)
Theorem Unpause_no_op :
  forall e w,
    VoiceConnection (player w) = None
    \/ CurrentStatus (player w) = StatusPlaying
    \/ CurrentStatus (player w) = StatusError
    \/ (CurrentStatus (player w) = StatusResting /\ SongQueue (player w) = [])
    \/ (CurrentStatus (player w) = StatusPaused
        /\ StreamingSession (player w) = None) ->
    Unpause e w = Returned w.
Proof.
  intros e [[vc ss es q cs st sk] t n]; unfold Unpause; simpl.
  intros H. destruct vc, ss, st, q; simpl; try reflexivity;
    exfalso; simpl in H; intuition congruence.
Qed.

Lemma Unpause_no_op_witness :
  Unpause env_ok (world_of (playing song_a [song_b]))
  = Returned (world_of (playing song_a [song_b])).
Proof.
  apply Unpause_no_op. right. left. vm_compute. reflexivity.
Defined.

(** ** What a returning Play leaves to its callers *)

Lemma unwind_trace k : forall w,
  trace (unwind k w) = trace w ++ deferred_cleanups k.
Proof.
  induction k as [|[enc|] k IH]; intros w; simpl.
  - now rewrite app_nil_r.
  - rewrite IH. simpl. now rewrite <- app_assoc.
  - now rewrite IH.
Qed.

Lemma unwind_ThenPlaying k : forall w,
  In ThenPlaying k -> CurrentStatus (player (unwind k w)) = StatusPlaying.
Proof.
  induction k as [|[enc|] k IH]; intros w H; simpl in *.
  - destruct H.
  - destruct H as [H|H]; [discriminate | now apply IH].
  - destruct (unwind_status k (upd (with_CurrentStatus StatusPlaying) w))
      as [E|E]; rewrite E; reflexivity.
Qed.

Lemma Play_ready_returns enc e k w w' :
  Play_ready enc e k w = Returned w' -> exists w0, w' = unwind k w0.
Proof.
  unfold Play_ready.
  destruct (VoiceConnection (player w)) as [vc|]; [|discriminate].
  destruct (discordgo.Ready vc); [|discriminate].
  destruct (Speaking_true_fails e).
  - intros E; inversion E. simpl. eexists; reflexivity.
  - match goal with |- context [CurrentSong ?p] => destruct (CurrentSong p) end;
      discriminate.
Qed.

Lemma Play_returns startAt song e k w w' :
  Play startAt song e k w = Returned w' -> exists w0, w' = unwind k w0.
Proof.
  destruct w as [[vc ss es q cs st sk] t n]. unfold Play, Dequeue; simpl.
  destruct song as [s|]; simpl.
  - destruct cs as [cur|]; [|discriminate].
    destruct (NewConfig_fails e); [discriminate|].
    destruct (EncodeFile_fails e);
      [intros E; inversion E; eexists; reflexivity | apply Play_ready_returns].
  - destruct q as [|x q]; simpl.
    + intros E; inversion E; eexists; reflexivity.
    + destruct (NewConfig_fails e); [discriminate|].
      destruct (EncodeFile_fails e);
        [intros E; inversion E; eexists; reflexivity
        | apply Play_ready_returns].
Qed.

Lemma restart_returns startAt cur enc e k w w' :
  restart startAt cur enc e k w = Returned w' -> exists w0, w' = unwind k w0.
Proof.
  unfold restart.
  destruct (EncodingSession (player (emit _ w))); [|discriminate].
  intros E. apply Play_returns in E. destruct E as [w0 ->].
  simpl. eexists; reflexivity.
Qed.

Lemma song_is_done_returns err enc e k w w' :
  song_is_done err enc e k w = Returned w' -> exists w0, w' = unwind k w0.
Proof.
  assert (Hgo : match GetSongQueue (player w) with
                | [] => match Stop e w with
                        | Returned w0 => Returned (unwind (DeferCleanup enc :: k) w0)
                        | other => other
                        end
                | _ :: _ => Play 0 None e (DeferCleanup enc :: k) w
                end = Returned w' -> exists w0, w' = unwind k w0).
  { destruct (GetSongQueue (player w)).
    - destruct (Stop e w); try discriminate.
      intros E; inversion E. simpl. eexists; reflexivity.
    - intros E. apply Play_returns in E. destruct E as [w0 ->].
      simpl. eexists; reflexivity. }
  unfold song_is_done. destruct err as [[|msg]|]; auto.
  match goal with |- context [EncodingSession ?p] =>
    destruct (EncodingSession p) end; [|discriminate].
  intros E; inversion E. simpl. eexists; reflexivity.
Qed.

Lemma select_done_returns enc e k w w' :
  select_done enc e k w = Returned w' -> exists w0, w' = unwind k w0.
Proof.
  unfold select_done, count_and_finish.
  destruct (VoiceConnection (player w)) as [vc|];
    [|apply song_is_done_returns].
  destruct (StreamingSession (player w)) as [ss|];
    [|apply song_is_done_returns].
  destruct (CurrentSong (player w)) as [cur|];
    [|apply song_is_done_returns].
  destruct (Source cur).
  - destruct (EncodingSession (player w)) as [cur_enc|]; [|discriminate].
    destruct (metrics cur_enc e cur) as [songDuration songPosition].
    destruct (status_eqb _ _); [|apply song_is_done_returns].
    destruct (_ && _); [|apply song_is_done_returns].
    destruct (_ <? _); [apply restart_returns | apply song_is_done_returns].
  - destruct (status_eqb _ _);
      [apply restart_returns | apply song_is_done_returns].
Qed.

Lemma select_skip_returns enc k w w' :
  select_skip enc k w = Some (Returned w') -> exists w0, w' = unwind k w0.
Proof.
  unfold select_skip.
  destruct (SkipInterrupt (player w)); [discriminate|].
  match goal with |- context [EncodingSession ?p] =>
    destruct (EncodingSession p) end; [|discriminate].
  intros E; inversion E. simpl. eexists; reflexivity.
Qed.

(** When Unpause finds the engine Resting with songs queued it calls
    Play(0, nil) and then sets the status to Playing without looking at
    what Play did: whenever that call returns at once (a failed EncodeFile,
    a failed Speaking), the status is Playing although nothing plays. *)
Theorem Unpause_from_rest_ends_Playing :
  forall e w w',
    VoiceConnection (player w) <> None ->
    CurrentStatus (player w) = StatusResting ->
    SongQueue (player w) <> [] ->
    Unpause e w = Returned w' ->
    CurrentStatus (player w') = StatusPlaying.
Proof.
  intros e [[vc ss es q cs st sk] t n] w'; simpl. intros Hvc -> Hq.
  unfold Unpause; simpl.
  destruct vc as [vc|]; [|congruence].
  destruct q as [|x q]; [congruence|].
  destruct ss; simpl; intros E; apply Play_returns in E;
    destruct E as [w0 ->]; apply unwind_ThenPlaying; left; reflexivity.
Qed.

Lemma Unpause_from_rest_ends_Playing_witness :
  CurrentStatus (player (result_world
    (Unpause (with_EncodeFile_fails env_ok) (upd (SetVoiceConnection (Some guild_voice)) queued_a))))
  = StatusPlaying
  /\ StreamingSession (player (result_world
    (Unpause (with_EncodeFile_fails env_ok) (upd (SetVoiceConnection (Some guild_voice)) queued_a))))
  = None.
Proof.
  split; [|vm_compute; reflexivity].
  assert (H : exists w', Unpause (with_EncodeFile_fails env_ok)
                           (upd (SetVoiceConnection (Some guild_voice)) queued_a)
                         = Returned w')
    by (vm_compute; eexists; reflexivity).
  destruct H as [w' H]. rewrite H. cbn [result_world].
  apply (Unpause_from_rest_ends_Playing (with_EncodeFile_fails env_ok)
           (upd (SetVoiceConnection (Some guild_voice)) queued_a) w');
    [vm_compute; discriminate | vm_compute; reflexivity
    | vm_compute; discriminate | exact H].
Defined.

(** A Play that was started by Unpause, or by Skip on a Resting engine,
    hands back to a caller that sets the status to Playing.  So whenever
    such a Play leaves its select and returns, through the done case or the
    skip case, the status ends up Playing, whatever happened meanwhile: also
    after Stop has put the engine to rest. *)
Theorem parked_Play_ends_Playing :
  forall enc e k w w',
    In ThenPlaying k ->
    select_done enc e k w = Returned w'
    \/ select_skip enc k w = Some (Returned w') ->
    CurrentStatus (player w') = StatusPlaying.
Proof.
  intros enc e k w w' Hk [E|E];
    [apply select_done_returns in E | apply select_skip_returns in E];
    destruct E as [w0 ->]; now apply unwind_ThenPlaying.
Qed.

Lemma parked_Play_ends_Playing_witness :
  threads_of resumed_ab = [mkThread AtSelect (session_0 song_a 0) [ThenPlaying]]
  /\ status_of (after [Call OpStop env_ok] resumed_ab) = Some StatusResting
  /\ CurrentStatus (player (result_world
       (select_done (session_0 song_a 0) env_ok [ThenPlaying]
          (world_of (after [Call OpStop env_ok] resumed_ab)))))
     = StatusPlaying.
Proof.
  split; [vm_compute; reflexivity|]. split; [vm_compute; reflexivity|].
  assert (H : exists w', select_done (session_0 song_a 0) env_ok [ThenPlaying]
                           (world_of (after [Call OpStop env_ok] resumed_ab))
                         = Returned w')
    by (vm_compute; eexists; reflexivity).
  destruct H as [w' H]. rewrite H. cbn [result_world].
  apply (parked_Play_ends_Playing (session_0 song_a 0) env_ok [ThenPlaying]
           (world_of (after [Call OpStop env_ok] resumed_ab)) w').
  - left; reflexivity.
  - left; exact H.
Defined.

(** ** Skip *)

Lemma Play_ready_keeps_connection enc e k w :
  VoiceConnection (player (result_world (Play_ready enc e k w)))
  = VoiceConnection (player w)
  /\ (In EvDisconnect (trace (result_world (Play_ready enc e k w))) ->
      In EvDisconnect (trace w)).
Proof.
  destruct w as [[vc ss es q cs st sk] t n]. unfold Play_ready; simpl.
  destruct vc as [vc|]; simpl; [|tauto].
  destruct (discordgo.Ready vc); simpl; [|tauto].
  destruct (Speaking_true_fails e); simpl.
  - match goal with |- context [unwind k ?x] =>
      destruct (unwind_keeps k x) as (H1 & _ & _ & _ & _ & _ & H7) end.
    rewrite H1. split; auto. intros H. apply H7 in H. now no_disconnect H.
  - destruct cs; simpl; split; auto; intros H; now no_disconnect H.
Qed.

Lemma Play_keeps_connection startAt song e k w :
  VoiceConnection (player (result_world (Play startAt song e k w)))
  = VoiceConnection (player w)
  /\ (In EvDisconnect (trace (result_world (Play startAt song e k w))) ->
      In EvDisconnect (trace w)).
Proof.
  assert (Hready : forall enc w1,
             VoiceConnection (player w1) = VoiceConnection (player w) ->
             (In EvDisconnect (trace w1) -> In EvDisconnect (trace w)) ->
             VoiceConnection (player (result_world (Play_ready enc e k w1)))
             = VoiceConnection (player w)
             /\ (In EvDisconnect (trace (result_world (Play_ready enc e k w1))) ->
                 In EvDisconnect (trace w))).
  { intros enc w1 Hv Hd.
    destruct (Play_ready_keeps_connection enc e k w1) as [H1 H2].
    rewrite H1. split; auto. }
  assert (Hunw : forall w1,
             VoiceConnection (player w1) = VoiceConnection (player w) ->
             (In EvDisconnect (trace w1) -> In EvDisconnect (trace w)) ->
             VoiceConnection (player (unwind k w1)) = VoiceConnection (player w)
             /\ (In EvDisconnect (trace (unwind k w1)) ->
                 In EvDisconnect (trace w))).
  { intros w1 Hv Hd.
    destruct (unwind_keeps k w1) as (H1 & _ & _ & _ & _ & _ & H7).
    rewrite H1. split; auto. }
  destruct w as [[vc ss es q cs st sk] t n]. unfold Play, Dequeue; simpl.
  destruct song as [s|]; simpl.
  - destruct cs as [cur|]; simpl.
    2: { split; auto. intros H. now no_disconnect H. }
    destruct (NewConfig_fails e); simpl.
    { split; auto. intros H. now no_disconnect H. }
    destruct (EncodeFile_fails e); simpl.
    + apply Hunw; auto. intros H. now no_disconnect H.
    + apply Hready; auto. intros H. now no_disconnect H.
  - destruct q as [|x q]; simpl.
    { apply Hunw; auto. intros H. now no_disconnect H. }
    destruct (NewConfig_fails e); simpl.
    { split; auto. intros H. now no_disconnect H. }
    destruct (EncodeFile_fails e); simpl.
    + apply Hunw; auto. intros H. now no_disconnect H.
    + apply Hready; auto. intros H. now no_disconnect H.
Qed.

(** Skip is a soft interruption: in every state and whatever the external
    calls answer, it leaves the voice connection of the player as it is and
    never calls Disconnect. *)
Theorem Skip_keeps_connection :
  forall e w,
    VoiceConnection (player (result_world (Skip e w)))
    = VoiceConnection (player w)
    /\ (In EvDisconnect (trace (result_world (Skip e w))) ->
        In EvDisconnect (trace w)).
Proof.
  intros e [[vc ss es q cs st sk] t n]. unfold Skip; simpl.
  assert (Hplay : forall k w1,
             VoiceConnection (player w1) = vc ->
             (In EvDisconnect (trace w1) -> In EvDisconnect t) ->
             VoiceConnection (player (result_world (Play 0 None e k w1))) = vc
             /\ (In EvDisconnect (trace (result_world (Play 0 None e k w1))) ->
                 In EvDisconnect t)).
  { intros k w1 Hv Hd.
    destruct (Play_keeps_connection 0 None e k w1) as [H1 H2].
    rewrite H1. split; auto. }
  destruct st; simpl.
  - destruct cs as [cur|], sk as [|b sk]; simpl; try tauto.
    + destruct vc as [vc|]; simpl; [|tauto].
      apply Hplay; auto. intros H. now no_disconnect H.
    + apply Hplay; auto.
  - destruct vc as [vc|], cs as [cur|]; simpl; try tauto.
    destruct sk as [|b sk]; simpl; [|tauto].
    apply Hplay; auto. intros H. now no_disconnect H.
  - destruct vc as [vc|], cs as [cur|]; simpl; try tauto.
    destruct sk as [|b sk]; simpl; [|tauto].
    apply Hplay; auto. intros H. now no_disconnect H.
  - tauto.
Qed.

(** Skip does nothing at all when the status is Error, when the engine is
    Resting with a skip signal already pending, and when it is Playing or
    Paused without a voice connection or without a current song. *)
Theorem Skip_no_op :
  forall e w,
    CurrentStatus (player w) = StatusError
    \/ (CurrentStatus (player w) = StatusResting
        /\ SkipInterrupt (player w) <> [])
    \/ ((CurrentStatus (player w) = StatusPlaying
         \/ CurrentStatus (player w) = StatusPaused)
        /\ (VoiceConnection (player w) = None
            \/ CurrentSong (player w) = None)) ->
    Skip e w = Returned w.
Proof.
  intros e [[vc ss es q cs st sk] t n]; unfold Skip; simpl. intros H.
  destruct st, vc, cs, sk; simpl; try reflexivity;
    exfalso; intuition congruence.
Qed.

Lemma Skip_no_op_witness :
  Skip env_ok (upd (SetCurrentStatus StatusError) (world_of (playing song_a [song_b])))
  = Returned (upd (SetCurrentStatus StatusError) (world_of (playing song_a [song_b]))).
Proof. apply Skip_no_op. left. vm_compute. reflexivity. Defined.



(** The skip case of the select.  It is ready exactly when a signal is
    pending.  The goroutine then takes one signal, stops speaking when a
    connection is there, cleans up the encode session the player currently
    holds and its own, and returns: it does not call Play, and the queue,
    the current song and the handles of the player are untouched.  It
    panics when the player holds no encode session. *)
Theorem select_skip_only_cleans_up :
  forall enc k w,
    match select_skip enc k w with
    | None => SkipInterrupt (player w) = []
    | Some (Returned w') =>
        SkipInterrupt (player w') = tl (SkipInterrupt (player w))
        /\ SkipInterrupt (player w) <> []
        /\ SongQueue (player w') = SongQueue (player w)
        /\ CurrentSong (player w') = CurrentSong (player w)
        /\ VoiceConnection (player w') = VoiceConnection (player w)
        /\ StreamingSession (player w') = StreamingSession (player w)
        /\ EncodingSession (player w') = EncodingSession (player w)
        /\ exists cur_enc,
             EncodingSession (player w) = Some cur_enc
             /\ trace w'
                = trace w
                  ++ match VoiceConnection (player w) with
                     | Some _ => [EvSpeaking false]
                     | None => []
                     end
                  ++ EvEncodeCleanup (dca.session cur_enc)
                  :: EvEncodeCleanup (dca.session enc) :: deferred_cleanups k
    | Some (Crashed a _) =>
        a = NilDeref /\ EncodingSession (player w) = None
    | Some (Blocked _ _) => False
    end.
Proof.
  intros enc k [[vc ss es q cs st sk] t n]. unfold select_skip; simpl.
  destruct sk as [|b sk]; [reflexivity|].
  destruct es as [cur_enc|]; [|destruct vc; simpl; auto].
  destruct vc as [vc|]; simpl;
    match goal with |- context [unwind ?k' ?x] =>
      destruct (unwind_keeps k' x) as (H1 & H2 & H3 & H4 & H5 & H6 & _);
      pose proof (unwind_trace k' x) as Ht end;
    rewrite H1, H2, H3, H4, H5, H6, Ht;
    simpl; repeat split; try discriminate;
    exists cur_enc; split; auto; rewrite <- !app_assoc; reflexivity.
Qed.

(** ** Play *)

(** Where Play parks.  When Play blocks at its select, the voice
    connection is ready, the status is Playing, the player holds the encode
    session opened by this call, on the download URL of the current song
    and starting at [startAt], and a fresh stream on that session; the
    parked goroutine remembers that session and its callers.  When Play
    blocks in the poll loop instead, the connection is not ready and the
    status and the stream session are those of before. *)
Theorem Play_parks :
  forall startAt song e k w t w',
    Play startAt song e k w = Blocked t w' ->
    callers t = k
    /\ EncodingSession (player w') = Some (opened t)
    /\ dca.StartTime (opened t) = startAt
    /\ (exists cur, CurrentSong (player w') = Some cur
                    /\ loaded song (player w) = Some cur
                    /\ dca.filePath (opened t) = DownloadURL cur)
    /\ match waiting t with
       | AtSelect =>
           connection_ready w' = true
           /\ CurrentStatus (player w') = StatusPlaying
           /\ StreamingSession (player w') = Some (dca.NewStream (opened t))
       | AtReady =>
           connection_ready w' = false
           /\ CurrentStatus (player w') = CurrentStatus (player w)
           /\ StreamingSession (player w') = StreamingSession (player w)
       end.
Proof.
  intros startAt song e k [[vc ss es q cs st sk] t0 n] t w'.
  unfold Play, Play_ready, Dequeue, loaded, connection_ready; simpl.
  assert (Hgo : forall cur q' p0,
     p0 = mkPlayer vc ss es q' (Some cur) st sk ->
     (if NewConfig_fails e
      then Crashed FatalExit
             (emit (EvLogFatal "Error loading config")
                (mkWorld p0 (t0 ++ [EvPlay startAt song]) n))
      else
        if EncodeFile_fails e
        then Returned
               (unwind k
                  (emit (EvLogError "Error encoding song")
                     (upd (with_EncodingSession None)
                        (emit (EvEncodeFile (DownloadURL cur) startAt)
                           (mkWorld p0 (t0 ++ [EvPlay startAt song]) n)))))
        else
          Play_ready (dca.mkEncodeSession n (DownloadURL cur) startAt) e k
            (mkWorld
               (with_EncodingSession
                  (Some (dca.mkEncodeSession n (DownloadURL cur) startAt)) p0)
               ((t0 ++ [EvPlay startAt song])
                ++ [EvEncodeFile (DownloadURL cur) startAt]) (S n)))
     = Blocked t w' ->
     callers t = k
     /\ EncodingSession (player w') = Some (opened t)
     /\ dca.StartTime (opened t) = startAt
     /\ (exists c, CurrentSong (player w') = Some c /\ Some cur = Some c
                   /\ dca.filePath (opened t) = DownloadURL c)
     /\ match waiting t with
        | AtSelect =>
            match VoiceConnection (player w') with
            | Some v => discordgo.Ready v
            | None => false
            end = true
            /\ CurrentStatus (player w') = StatusPlaying
            /\ StreamingSession (player w') = Some (dca.NewStream (opened t))
        | AtReady =>
            match VoiceConnection (player w') with
            | Some v => discordgo.Ready v
            | None => false
            end = false
            /\ CurrentStatus (player w') = st
            /\ StreamingSession (player w') = ss
        end).
  { intros cur q' p0 ->.
    destruct (NewConfig_fails e); [discriminate|].
    destruct (EncodeFile_fails e); [discriminate|].
    unfold Play_ready; simpl.
    destruct vc as [v|]; simpl.
    - destruct (discordgo.Ready v) eqn:Hr; simpl.
      + destruct (Speaking_true_fails e); [discriminate|].
        intros E; inversion E; subst; simpl. rewrite Hr.
        repeat split; eauto.
      + intros E; inversion E; subst; simpl. rewrite Hr.
        repeat split; eauto.
    - intros E; inversion E; subst; simpl. repeat split; eauto. }
  destruct song as [s|]; simpl.
  - destruct cs as [cur|]; [|discriminate].
    intros E. apply (Hgo cur q _ eq_refl) in E. exact E.
  - destruct q as [|x q]; simpl; [discriminate|].
    intros E. apply (Hgo x q _ eq_refl) in E. exact E.
Qed.

Lemma Play_parks_witness :
  CurrentStatus (player (world_of (playing song_a [song_b]))) = StatusPlaying
  /\ EncodingSession (player (world_of (playing song_a [song_b])))
     = Some (session_0 song_a 0).
Proof.
  assert (E : Play 0 None env_ok [] (world_of
                (after [Call (OpEnqueue song_a) env_ok;
                        Call (OpEnqueue song_b) env_ok] joined))
              = Blocked (mkThread AtSelect (session_0 song_a 0) [])
                        (world_of (playing song_a [song_b])))
    by (vm_compute; reflexivity).
  apply Play_parks in E. destruct E as (_ & H2 & _ & _ & _ & H5 & _).
  split; [exact H5 | exact H2].
Defined.

(** The song passed to Play is only tested against nil.  Two calls that
    differ in the song given leave the same player and end the same way;
    what is played is the current song of the player, and with no current
    song a call with a song panics on the nil dereference. *)
Theorem Play_song_is_a_flag :
  forall startAt s1 s2 e k w,
    player (result_world (Play startAt (Some s1) e k w))
    = player (result_world (Play startAt (Some s2) e k w))
    /\ abort_of (Play startAt (Some s1) e k w)
       = abort_of (Play startAt (Some s2) e k w)
    /\ (CurrentSong (player w) = None ->
        abort_of (Play startAt (Some s1) e k w) = Some NilDeref).
Proof.
  intros startAt s1 s2 e k [[vc ss es q cs st sk] t n].
  assert (Hunw : forall k' p t1 t2 n',
             player (unwind k' (mkWorld p t1 n'))
             = player (unwind k' (mkWorld p t2 n'))).
  { induction k' as [|[enc|] k' IH]; intros; simpl; auto.
    - unfold emit; simpl. apply IH.
    - unfold upd; simpl. apply IH. }
  unfold Play, Play_ready; simpl.
  destruct cs as [cur|]; simpl; [|repeat split].
  destruct (NewConfig_fails e); simpl; [repeat split; discriminate|].
  destruct (EncodeFile_fails e); simpl.
  { repeat split; try discriminate. unfold emit, upd; simpl. apply Hunw. }
  destruct vc as [v|]; simpl; [|repeat split; discriminate].
  destruct (discordgo.Ready v); simpl; [|repeat split; discriminate].
  destruct (Speaking_true_fails e); simpl; [|repeat split; discriminate].
  repeat split; try discriminate. unfold emit, upd; simpl. apply Hunw.
Qed.

Lemma Play_song_is_a_flag_witness :
  abort_of (Play 0 (Some song_a) env_ok [] (initial "guild")) = Some NilDeref.
Proof.
  apply (Play_song_is_a_flag 0 song_a song_b env_ok [] (initial "guild")).
  reflexivity.
Defined.

(** A voice connection that arrives late changes nothing.  When Play finds
    no ready connection it parks in the poll loop; once a ready connection
    has been set, letting the parked goroutine go on gives exactly the
    result of a Play called with that connection already in place. *)
Theorem late_connection_commutes :
  forall startAt song e k w cur conn,
    connection_ready w = false ->
    loaded song (player w) = Some cur ->
    NewConfig_fails e = false ->
    EncodeFile_fails e = false ->
    discordgo.Ready conn = true ->
    exists enc w1,
      Play startAt song e k w = Blocked (mkThread AtReady enc k) w1
      /\ Play_ready enc e k (upd (SetVoiceConnection (Some conn)) w1)
         = Play startAt song e k (upd (SetVoiceConnection (Some conn)) w).
Proof.
  intros startAt song e k [[vc ss es q cs st sk] t n] cur conn.
  unfold connection_ready, loaded, Dequeue; simpl. intros Hnr Hl Hc He Hr.
  unfold Play, Play_ready, Dequeue; simpl.
  destruct song as [s|]; simpl in *.
  - subst cs. simpl. rewrite Hc, He, Hr. simpl.
    destruct vc as [v|]; [rewrite Hnr|]; do 2 eexists; split; reflexivity.
  - destruct q as [|x q]; simpl in *; [discriminate|].
    inversion Hl; subst x. rewrite Hc, He, Hr. simpl.
    destruct vc as [v|]; [rewrite Hnr|]; do 2 eexists; split; reflexivity.
Qed.

Lemma late_connection_commutes_witness :
  exists enc w1,
    Play 0 None env_ok [] (upd (Enqueue song_a) (initial "guild"))
    = Blocked (mkThread AtReady enc []) w1
    /\ Play_ready enc env_ok []
         (upd (SetVoiceConnection (Some guild_voice)) w1)
       = Play 0 None env_ok []
           (upd (SetVoiceConnection (Some guild_voice))
                (upd (Enqueue song_a) (initial "guild"))).
Proof.
  apply late_connection_commutes with (cur := song_a); reflexivity.
Defined.

(** ** The end of a song *)

(** An on-demand song that has reached its duration.  When done fires, the
    handles are in place, the position computed by metrics is not below the
    duration, and the statistics call succeeds (or returns io.EOF, which
    the code lets pass), the engine records one play count for the song and
    then, if the queue is empty, calls Stop, and otherwise calls
    Play(0, nil), which takes the head of the queue. *)
Theorem finished_song_advances_or_stops :
  forall enc e k w vc ss cur cur_enc,
    VoiceConnection (player w) = Some vc ->
    StreamingSession (player w) = Some ss ->
    CurrentSong (player w) = Some cur ->
    Source cur = SourceYouTube ->
    EncodingSession (player w) = Some cur_enc ->
    fst (metrics cur_enc e cur) <= snd (metrics cur_enc e cur) ->
    (forall msg, CountStats_error e <> Some (OtherError msg)) ->
    select_done enc e k w
    = let w1 := emit (EvAddPlaybackCountStats (discordgo.GuildID vc) (ID cur)) w in
      match SongQueue (player w) with
      | [] => match Stop e w1 with
              | Returned w2 => Returned (unwind (DeferCleanup enc :: k) w2)
              | other => other
              end
      | _ :: _ => Play 0 None e (DeferCleanup enc :: k) w1
      end.
Proof.
  intros enc e k w vc ss cur cur_enc Hvc Hss Hcs Hsrc Hes Hle Hok.
  unfold select_done. rewrite Hvc, Hss, Hcs, Hsrc, Hes.
  destruct (metrics cur_enc e cur) as [songDuration songPosition];
    simpl in Hle.
  assert (Hnlt : (songPosition <? songDuration) = false)
    by (apply Z.ltb_ge; exact Hle).
  rewrite Hnlt.
  assert (Hcf : count_and_finish vc cur enc e k w
                = let w1 := emit (EvAddPlaybackCountStats
                                    (discordgo.GuildID vc) (ID cur)) w in
                  match SongQueue (player w) with
                  | [] => match Stop e w1 with
                          | Returned w2 =>
                              Returned (unwind (DeferCleanup enc :: k) w2)
                          | other => other
                          end
                  | _ :: _ => Play 0 None e (DeferCleanup enc :: k) w1
                  end).
  { unfold count_and_finish, song_is_done.
    destruct (CountStats_error e) as [[|msg]|]; try reflexivity.
    exfalso. apply (Hok msg). reflexivity. }
  destruct (status_eqb _ _); [|exact Hcf].
  destruct (_ && _); exact Hcf.
Qed.

Lemma finished_song_advances_or_stops_witness :
  CurrentSong (player (result_world
    (select_done (session_0 song_a 0) env_ok []
       (world_of (playing song_a [song_b]))))) = Some song_b
  /\ SongQueue (player (result_world
    (select_done (session_0 song_a 0) env_ok []
       (world_of (playing song_a [song_b]))))) = [].
Proof.
  rewrite (finished_song_advances_or_stops (session_0 song_a 0) env_ok []
             (world_of (playing song_a [song_b])) guild_voice
             (dca.NewStream (session_0 song_a 0)) song_a (session_0 song_a 0));
    try reflexivity.
  - vm_compute. split; reflexivity.
  - intros msg. vm_compute. discriminate.
Defined.

(** A failing statistics call at the end of a song.  When done fires on an
    engine that is not Playing any more, with its handles in place, and
    AddPlaybackCountStats returns an error other than io.EOF, the engine
    stops speaking, goes to Resting and cleans up the encode session; the
    queue, the current song and the voice connection stay as they are, and
    neither Stop nor Play is called. *)
Theorem stats_error_rests_with_queue_intact :
  forall enc e k w vc ss cur cur_enc msg,
    VoiceConnection (player w) = Some vc ->
    StreamingSession (player w) = Some ss ->
    CurrentSong (player w) = Some cur ->
    EncodingSession (player w) = Some cur_enc ->
    CurrentStatus (player w) <> StatusPlaying ->
    CountStats_error e = Some (OtherError msg) ->
    select_done enc e k w
    = Returned
        (unwind k
           (mkWorld (with_CurrentStatus StatusResting (player w))
              (trace w
               ++ [EvAddPlaybackCountStats (discordgo.GuildID vc) (ID cur);
                   EvLogWarn "Song is done but an unexpected error occurred";
                   EvSpeaking false;
                   EvEncodeCleanup (dca.session cur_enc);
                   EvEncodeCleanup (dca.session enc)])
              (sessions w))).
Proof.
  intros enc e k [[vc0 ss0 es q cs st sk] t n] vc ss cur cur_enc msg; simpl.
  intros -> -> -> -> Hst Herr.
  unfold select_done, count_and_finish, song_is_done; simpl. rewrite Herr.
  assert (Hnp : status_eqb st StatusPlaying = false)
    by (destruct st; auto; congruence).
  rewrite Hnp. unfold emit, upd; simpl. rewrite <- !app_assoc. simpl.
  destruct (Source cur); [destruct (metrics cur_enc e cur)|]; reflexivity.
Qed.

Lemma stats_error_rests_with_queue_intact_witness :
  status_of (after [Call OpPause env_ok;
                    Done 0 (mkEnv false false false false false 0 0 0
                                  (Some (OtherError "no such table")))]
                   (playing song_a [song_b]))
  = Some StatusResting
  /\ SongQueue (player (world_of
       (after [Call OpPause env_ok;
               Done 0 (mkEnv false false false false false 0 0 0
                             (Some (OtherError "no such table")))]
              (playing song_a [song_b])))) = [song_b].
Proof.
  assert (E : step (Done 0 (mkEnv false false false false false 0 0 0
                                  (Some (OtherError "no such table"))))
                   (after [Call OpPause env_ok] (playing song_a [song_b]))
              = Some (settle
                  (select_done (session_0 song_a 0)
                     (mkEnv false false false false false 0 0 0
                            (Some (OtherError "no such table"))) []
                     (world_of (after [Call OpPause env_ok]
                                      (playing song_a [song_b])))) []))
    by (vm_compute; reflexivity).
  rewrite (stats_error_rests_with_queue_intact (session_0 song_a 0)
             (mkEnv false false false false false 0 0 0
                    (Some (OtherError "no such table"))) []
             (world_of (after [Call OpPause env_ok] (playing song_a [song_b])))
             guild_voice (dca.SetPaused true (dca.NewStream (session_0 song_a 0)))
             song_a (session_0 song_a 0) "no such table") in E;
    try (vm_compute; reflexivity); [|vm_compute; discriminate].
  assert (A : after [Call OpPause env_ok;
                     Done 0 (mkEnv false false false false false 0 0 0
                                   (Some (OtherError "no such table")))]
                    (playing song_a [song_b])
              = after [Done 0 (mkEnv false false false false false 0 0 0
                                     (Some (OtherError "no such table")))]
                      (after [Call OpPause env_ok] (playing song_a [song_b])))
    by (vm_compute; reflexivity).
  rewrite A. unfold after at 1 3. cbn [run]. rewrite E.
  vm_compute. split; reflexivity.
Defined.

(** ** Stop again *)

(** The stop command calls ClearQueue and then Stop; Stop clears the queue
    itself, so the command does exactly what Stop does. *)
Theorem handleStopCommand_is_Stop :
  forall e w, handleStopCommand e w = Stop e w.
Proof.
  intros e [[vc ss es q cs st sk] t n].
  unfold handleStopCommand, Stop, upd, ClearQueue; simpl.
  destruct q; reflexivity.
Qed.

Lemma Stop_clears e w w1 :
  Stop e w = Returned w1 ->
  VoiceConnection (player w1) = None
  /\ StreamingSession (player w1) = None
  /\ SongQueue (player w1) = []
  /\ CurrentSong (player w1) = None
  /\ CurrentStatus (player w1) = StatusResting.
Proof.
  destruct w as [[vc ss es q cs st sk] t n].
  unfold Stop, upd, emit, ClearQueue, SetVoiceConnection; simpl.
  destruct vc, q, (Speaking_false_fails e), (Disconnect_fails e), ss, es, cs;
    simpl; intros E; inversion E; subst w1; repeat split.
Qed.

(** After a Stop that returned, any further Stop returns as well (there is
    no connection left whose Disconnect could fail) and leaves the player
    as it is; since the player still points to the old encode session, its
    Stop and Cleanup are called once more. *)
Theorem Stop_twice :
  forall e e' w w1,
    Stop e w = Returned w1 ->
    Stop e' w1
    = Returned
        (mkWorld (player w1)
           (trace w1
            ++ match EncodingSession (player w1) with
               | Some enc => [EvEncodeStop (dca.session enc);
                              EvEncodeCleanup (dca.session enc)]
               | None => []
               end)
           (sessions w1)).
Proof.
  intros e e' w w1 E. apply Stop_clears in E.
  destruct w1 as [[vc ss es q cs st sk] t n]. simpl in E.
  destruct E as (-> & -> & -> & -> & ->).
  unfold Stop, upd, emit, ClearQueue; simpl.
  destruct es; simpl; rewrite <- ?app_assoc, ?app_nil_r; reflexivity.
Qed.

Lemma Stop_twice_witness :
  abort_of (Stop (with_Disconnect_fails env_ok) (world_of stopped_a)) = None
  /\ player (result_world (Stop (with_Disconnect_fails env_ok) (world_of stopped_a)))
     = player (world_of stopped_a).
Proof.
  assert (E : Stop env_ok (world_of (playing song_a []))
              = Returned (world_of stopped_a)) by (vm_compute; reflexivity).
  rewrite (Stop_twice env_ok (with_Disconnect_fails env_ok) _ _ E).
  split; reflexivity.
Defined.

(** ** More on the resume arithmetic *)

(** The position computed by metrics does not depend on how much was
    streamed: the playback position is added and subtracted again, and what
    is left is the start offset plus the encoded duration. *)
Theorem metrics_ignores_playback_position :
  forall enc e s,
    snd (metrics enc e s)
    = wrap64 (dca.StartTime enc * Second + Stats_Duration e).
Proof.
  intros enc e s. rewrite metrics_position. f_equal. ring.
Qed.

(** A download URL without a usable duration parameter never leads to a
    resume: when the duration computed by metrics is zero (ParseDuration
    failed and returned 0) or negative, the done case of an on-demand song
    adds no call of Play with a song, in any state and for any position. *)
Theorem no_resume_without_duration :
  forall enc e k w cur,
    CurrentSong (player w) = Some cur ->
    Source cur = SourceYouTube ->
    wrap64 (ParseDuration e * Second) <= 0 ->
    replays (result_world (select_done enc e k w)) = replays w.
Proof.
  intros enc e k w cur Hcs Hsrc Hdur. unfold select_done. rewrite Hcs.
  destruct (VoiceConnection (player w)) as [vc|];
    [|apply replays_song_is_done].
  destruct (StreamingSession (player w)) as [ss|];
    [|apply replays_song_is_done].
  rewrite Hsrc.
  destruct (EncodingSession (player w)) as [cur_enc|]; [|reflexivity].
  unfold metrics.
  destruct (status_eqb _ _); [|apply replays_count_and_finish].
  destruct (0 <? Stats_Duration e); simpl; [|apply replays_count_and_finish].
  match goal with |- context [0 <? ?pos] => destruct (0 <? pos) eqn:Hp end;
    [|apply replays_count_and_finish].
  match goal with |- context [?pos <? ?dur] => destruct (pos <? dur) eqn:Hlt end;
    [|apply replays_count_and_finish].
  apply Z.ltb_lt in Hp, Hlt. lia.
Qed.

Lemma no_resume_without_duration_witness :
  replays (result_world (select_done (session_0 song_a 10)
             (mkEnv false false false false false (41 * Second) (30 * Second) 0 None)
             [] (world_of playing_from_10)))
  = replays (world_of playing_from_10).
Proof.
  apply no_resume_without_duration with (cur := song_a);
    [reflexivity | reflexivity | vm_compute; discriminate].
Defined.

(** A resume never goes backwards.  For a start offset that is not
    negative, a positive encoded duration and a position below 2^24
    seconds (where the conversion to whole seconds is exact), the offset at
    which the song is resumed is at least the start offset of the session
    that ended; it is beyond it as soon as one second was encoded, and it is
    the same offset again when less than a second was encoded. *)
Theorem resume_offset_progress :
  forall enc e s,
    0 <= dca.StartTime enc ->
    0 < Stats_Duration e ->
    dca.StartTime enc * Second + Stats_Duration e < 2 ^ 24 * Second ->
    dca.StartTime enc <= whole_seconds (snd (metrics enc e s))
    /\ (Second <= Stats_Duration e ->
        dca.StartTime enc < whole_seconds (snd (metrics enc e s)))
    /\ (Stats_Duration e < Second ->
        whole_seconds (snd (metrics enc e s)) = dca.StartTime enc).
Proof.
  intros enc e s Hs Hd Hb.
  rewrite metrics_position.
  replace (dca.StartTime enc * Second + PlaybackPosition e
           + (Stats_Duration e - PlaybackPosition e))
    with (dca.StartTime enc * Second + Stats_Duration e) by ring.
  unfold Second in *. rewrite wrap64_small by lia.
  unfold whole_seconds, Second.
  rewrite Z.quot_div_nonneg by lia.
  rewrite Z.add_comm, Z.div_add by lia.
  assert (H0 : 0 <= Stats_Duration e / 1000000000)
    by (apply Z.div_pos; lia).
  repeat split.
  - lia.
  - intros H1.
    assert (1 <= Stats_Duration e / 1000000000)
      by (apply Z.div_le_lower_bound; lia).
    lia.
  - intros H1. rewrite Z.div_small by lia. lia.
Qed.

Lemma resume_offset_progress_witness :
  10 < whole_seconds (snd (metrics (session_0 song_a 10) env_resume song_a)).
Proof.
  apply (resume_offset_progress (session_0 song_a 10) env_resume song_a);
    vm_compute; congruence.
Defined.

(** ** The skip signal *)


(** ** The command layer *)

Lemma status_eqb_eq a b : status_eqb a b = true <-> a = b.
Proof. destruct a, b; simpl; split; intros H; congruence. Qed.

Ltac split_ifs :=
  repeat match goal with
         | |- context [if ?b then _ else _] => destruct b eqn:?
         end.

(** The pause, resume and play commands.  The pause handler runs only for
    the command pause with an empty parameter on a Playing engine, and the
    resume handler only for pause or resume with an empty parameter on an
    engine that is not Playing: with no parameter, pause toggles between
    the two.  With a parameter, pause and resume fall through to the play
    command; so does resume without a parameter on a Playing engine. *)
Theorem Commands_pause_resume_play :
  (forall c p st,
      Commands_switch c p st = PauseCommand ->
      c = "pause" /\ p = "" /\ st = StatusPlaying)
  /\ (forall c p st,
        Commands_switch c p st = ResumeCommand ->
        (c = "pause" \/ c = "resume") /\ p = "" /\ st <> StatusPlaying)
  /\ (forall st,
        Commands_switch "pause" "" st
        = if status_eqb st StatusPlaying then PauseCommand else ResumeCommand)
  /\ (forall p st,
        p <> "" ->
        Commands_switch "pause" p st = PlayCommand p false
        /\ Commands_switch "resume" p st = PlayCommand p false)
  /\ Commands_switch "resume" "" StatusPlaying = PlayCommand "" false.
Proof.
  repeat split.
  - revert H. unfold Commands_switch. split_ifs; try discriminate.
    intros _. now apply String.eqb_eq.
  - revert H. unfold Commands_switch. split_ifs; try discriminate.
    intros _.
    match goal with H : (_ && _) = true |- _ =>
      apply andb_prop in H; destruct H as [H _]; now apply String.eqb_eq in H end.
  - revert H. unfold Commands_switch. split_ifs; try discriminate.
    intros _.
    match goal with H : (_ && _) = true |- _ =>
      apply andb_prop in H; destruct H as [_ H]; now apply status_eqb_eq in H end.
  - revert H. unfold Commands_switch. split_ifs; try discriminate; intros _.
    + left. now apply String.eqb_eq.
    + right. now apply String.eqb_eq.
  - revert H. unfold Commands_switch. split_ifs; try discriminate; intros _;
      match goal with H : (_ && negb _) = true |- _ =>
        apply andb_prop in H; destruct H as [H _]; now apply String.eqb_eq in H end.
  - revert H. unfold Commands_switch. split_ifs; try discriminate; intros _;
      match goal with H : (_ && negb _) = true |- _ =>
        apply andb_prop in H; destruct H as [_ H];
        apply negb_true_iff in H; intros ->; discriminate H end.
  - intros st. unfold Commands_switch. simpl. destruct st; reflexivity.
  - apply String.eqb_neq in H. unfold Commands_switch. simpl. rewrite H.
    reflexivity.
  - apply String.eqb_neq in H. unfold Commands_switch. simpl. rewrite H.
    reflexivity.
Qed.

Lemma Commands_pause_resume_play_witness :
  Commands_switch "pause" "lofi radio" StatusPlaying
  = PlayCommand "lofi radio" false.
Proof.
  apply (proj1 (proj2 (proj2 (proj2 Commands_pause_resume_play))));
    discriminate.
Defined.

(** The pause command on an engine that reports Playing without a current
    song: Commands sends it to the pause handler, which dereferences the
    current song and panics.  Such a state is reachable: Skip on a new
    engine leaves it. *)
Theorem pause_command_can_panic :
  (forall w,
      CurrentStatus (player w) = StatusPlaying ->
      CurrentSong (player w) = None ->
      Commands_switch "pause" "" (GetCurrentStatus (player w)) = PauseCommand
      /\ handlePauseCommand w = Crashed NilDeref w)
  /\ (exists w ts,
        reachable (Live w ts)
        /\ CurrentStatus (player w) = StatusPlaying
        /\ CurrentSong (player w) = None).
Proof.
  split.
  - intros w Hst Hcs. unfold GetCurrentStatus, handlePauseCommand, GetCurrentSong.
    rewrite Hst, Hcs. split; reflexivity.
  - exists (world_of (after [Call OpSkip env_ok] (Live (initial "guild") []))), [].
    split; [|split; vm_compute; reflexivity].
    exists "guild", [Call OpSkip env_ok]. split; vm_compute; reflexivity.
Qed.

Lemma pause_command_can_panic_witness :
  handlePauseCommand
    (world_of (after [Call OpSkip env_ok] (Live (initial "guild") [])))
  = Crashed NilDeref
      (world_of (after [Call OpSkip env_ok] (Live (initial "guild") []))).
Proof.
  apply (proj1 pause_command_can_panic); vm_compute; reflexivity.
Defined.

(** The resume command without a voice connection.  When the player has no
    connection and the author of the message is in no voice channel, or the
    join fails, the command changes nothing and makes no call on the
    player's collaborators.  With a connection in place the command is
    Unpause, whatever the voice states are. *)
Theorem handleResumeCommand_needs_connection :
  forall author_in_voice join e w,
    (VoiceConnection (player w) = None ->
     author_in_voice = false \/ join = None ->
     handleResumeCommand author_in_voice join e w = Returned w)
    /\ (VoiceConnection (player w) <> None ->
        handleResumeCommand author_in_voice join e w = Unpause e w).
Proof.
  intros a j e [[vc ss es q cs st sk] t n].
  unfold handleResumeCommand, GetVoiceConnection; simpl. split.
  - intros -> [-> | ->].
    + reflexivity.
    + destruct a; reflexivity.
  - intros H. destruct vc; [|congruence]. destruct a; reflexivity.
Qed.

Lemma handleResumeCommand_needs_connection_witness :
  handleResumeCommand true None env_ok (upd (Enqueue song_a) (initial "guild"))
  = Returned (upd (Enqueue song_a) (initial "guild"))
  /\ handleResumeCommand false None env_ok (world_of paused_a)
     = Unpause env_ok (world_of paused_a).
Proof.
  split.
  - apply (proj1 (handleResumeCommand_needs_connection true None env_ok
                    (upd (Enqueue song_a) (initial "guild"))));
      [reflexivity | right; reflexivity].
  - apply (proj2 (handleResumeCommand_needs_connection false None env_ok
                    (world_of paused_a))).
    vm_compute. discriminate.
Defined.
